(** * Fixed-versions endpoint: a shallow embedding and its properties

    The program is a single FastAPI endpoint, [GET /fixed-versions], that
    queries the OSV vulnerability API once per requested ecosystem,
    extracts the [fixed] versions of the returned records, removes
    duplicates, sorts, and answers with a JSON object.

    Modelling conventions.
    - A Python value obtained by decoding JSON is a [json]: [None],
      [bool], [int], [float], [str], [list] and [dict] with [str] keys.
      A [dict] is a [gmap string json]; the only place where the program
      could observe the insertion order of a dictionary is iteration over
      a dictionary that sits where a list is expected, and that order is
      shown to be irrelevant there (every key is a [str], on which the
      next [.get] raises).
    - A Python [str] is a [string]; its characters are compared by their
      codes, as Python compares code points.  (On UTF-8 encoded text the
      byte-wise lexicographic order is the code-point order.)
    - Exceptions are values of [pyexn]; a computation that may raise
      returns [pyexn + A].
    - An async generator is its trace: the values it yields, in order,
      followed by how it ends ([gen]).
    - Outbound HTTP is a function of the environment ([World]); the model
      threads the list of queries posted so far ([io]).
    - The iteration order of a Python [set] is not specified by the
      language; it is a component of [PyRuntime] about which only the
      language guarantees are known. *)

From Stdlib Require Import ZArith SpecFloat.
From stdpp Require Import gmap strings list sorting.

#[local] Set Warnings "-register-all".

(** ** Python values decoded from JSON *)

Inductive json : Type :=
  | JNull
  | JBool (b : bool)
  | JInt (n : Z)
  | JFloat (f : spec_float)
  | JStr (s : string)
  | JArr (l : list json)
  | JObj (m : gmap string json).

(** Exceptions the program can meet. *)
Inductive pyexn : Type :=
  | TypeError
  | AttributeError
  | TransportError                    (* any exception of [client.post] *)
  | HTTPStatusError (status : Z)      (* [response.raise_for_status()] *)
  | JSONDecodeError                   (* [response.json()] *)
  | ValidationError                   (* pydantic model validation *)
  | HTTPException (status_code : Z) (detail : string).

(** [bool(v)]: Python truthiness. *)
Definition truthy (v : json) : bool :=
  match v with
  | JNull => false
  | JBool b => b
  | JInt n => negb (n =? 0)%Z
  | JFloat f => match f with S754_zero _ => false | _ => true end
  | JStr s => negb (String.eqb s EmptyString)
  | JArr l => match l with [] => false | _ => true end
  | JObj m => negb (bool_decide (m = ∅))
  end.

(** [v.get(k, dflt)]: only a [dict] has the method. *)
Definition py_get (v : json) (k : string) (dflt : json) : pyexn + json :=
  match v with
  | JObj m => inr (default dflt (m !! k))
  | _ => inl AttributeError
  end.

(** [iter(v)]: the items a [for] loop over [v] visits. *)
Definition py_iter (v : json) : pyexn + list json :=
  match v with
  | JArr l => inr l
  | JStr s => inr ((λ c, JStr (String c EmptyString)) <$> String.list_ascii_of_string s)
  | JObj m => inr (JStr <$> (map_to_list m).*1)
  | JNull | JBool _ | JInt _ | JFloat _ => inl TypeError
  end.

(** ** Generators *)

(** The trace of a generator: what it yielded, then an exception or the
    value it finished with. *)
Definition gen (A : Type) : Type := list json * (pyexn + A).

Definition gen_ret {A} (a : A) : gen A := ([], inr a).
Definition gen_raise {A} (e : pyexn) : gen A := ([], inl e).
Definition yield (v : json) : gen unit := ([v], inr tt).

Definition gen_bind {A B} (g : gen A) (k : A → gen B) : gen B :=
  match g with
  | (ys, inl e) => (ys, inl e)
  | (ys, inr a) => let '(zs, r) := k a in (ys ++ zs, r)
  end.

Definition gen_lift {A} (r : pyexn + A) : gen A :=
  match r with inl e => gen_raise e | inr a => gen_ret a end.

#[global] Instance gen_mret : MRet gen := @gen_ret.
#[global] Instance gen_mbind : MBind gen := λ A B k g, gen_bind g k.

(** The body of a [for] loop run over the items, in order, stopping at the
    first exception. *)
Fixpoint gen_for (body : json → gen unit) (xs : list json) : gen unit :=
  match xs with
  | [] => gen_ret tt
  | x :: xs' => body x;; gen_for body xs'
  end.

(** [for x in it: body]. *)
Definition for_in (it : json) (body : json → gen unit) : gen unit :=
  xs ← gen_lift (py_iter it); gen_for body xs.

(** ** [extract_fixed_versions], one definition per loop body *)

Definition extract_event (event : json) : gen unit :=
  fixed_version ← gen_lift (py_get event "fixed" JNull);
  if truthy fixed_version then yield fixed_version else gen_ret tt.

Definition extract_range (range_ : json) : gen unit :=
  events ← gen_lift (py_get range_ "events" (JArr []));
  for_in events extract_event.

Definition extract_affected (affected : json) : gen unit :=
  ranges ← gen_lift (py_get affected "ranges" (JArr []));
  for_in ranges extract_range.

Definition extract_vuln (vuln : json) : gen unit :=
  affected ← gen_lift (py_get vuln "affected" (JArr []));
  for_in affected extract_affected.

Definition extract_fixed_versions (data : json) : gen unit :=
  vulns ← gen_lift (py_get data "vulns" (JArr []));
  for_in vulns extract_vuln.

(** ** The outbound query *)

(** [OSVQuery]: the three optional fields default to [None]; [package] is
    the dictionary the program builds. *)
Record OSVQuery : Type := mkOSVQuery {
  commit : option string;
  version : option string;
  package : gmap string string;
  pageToken : option string;
}.

Definition OSV_API_URL : string := "https://api.osv.dev/v1/query".

(** An [httpx.Response], as far as the program looks at it: the status
    code and the body decoded as JSON ([None] when it does not decode). *)
Record Response : Type := mkResponse {
  status_code : Z;
  json_body : option json;
}.

(** The environment of one request: what a [POST] of a query to a URL
    answers ([None]: the call raises, no response), and the clock. *)
Record World : Type := mkWorld {
  http_post : string → OSVQuery → option Response;
  now_isoformat : string;
}.

(** [response.raise_for_status()]: raises unless the status is 2xx. *)
Definition raise_for_status (r : Response) : pyexn + unit :=
  if bool_decide (200 ≤ status_code r ≤ 299)%Z then inr tt
  else inl (HTTPStatusError (status_code r)).

(** [response.json()]. *)
Definition response_json (r : Response) : pyexn + json :=
  match json_body r with Some d => inr d | None => inl JSONDecodeError end.

(** ** Coroutines: exceptions and the log of posted queries *)

Definition io (A : Type) : Type := list OSVQuery → (pyexn + A) * list OSVQuery.

Definition io_ret {A} (a : A) : io A := λ log, (inr a, log).
Definition io_raise {A} (e : pyexn) : io A := λ log, (inl e, log).
Definition io_bind {A B} (m : io A) (k : A → io B) : io B := λ log,
  match m log with
  | (inl e, log') => (inl e, log')
  | (inr a, log') => k a log'
  end.
Definition io_lift {A} (r : pyexn + A) : io A :=
  match r with inl e => io_raise e | inr a => io_ret a end.

#[global] Instance io_mret : MRet io := @io_ret.
#[global] Instance io_mbind : MBind io := λ A B k m, io_bind m k.

(** [await client.post(url, json=payload.dict())]. *)
Definition client_post (w : World) (url : string) (q : OSVQuery) : io Response := λ log,
  (match http_post w url q with Some r => inr r | None => inl TransportError end,
   log ++ [q]).

(** [await asyncio.gather] over the tasks, without [return_exceptions]: every task
    is started; the results come in the order of the tasks; if a task
    raises, so does [gather].  When several tasks raise, which exception
    comes out depends on timing; the model takes the first in task
    order. *)
Fixpoint gather {A} (tasks : list (io A)) : io (list A) := λ log,
  match tasks with
  | [] => (inr [], log)
  | t :: ts =>
      let '(r, log1) := t log in
      let '(rs, log2) := gather ts log1 in
      (match r, rs with
       | inl e, _ => inl e
       | inr _, inl e => inl e
       | inr a, inr l => inr (a :: l)
       end, log2)
  end.

Definition query_osv_api (client : World) (query_payload : OSVQuery) : io json :=
  response ← client_post client OSV_API_URL query_payload;
  io_lift (raise_for_status response);;
  io_lift (response_json response).

(** Returns the generator object; nothing of it has run yet. *)
Definition fetch_fixed_versions_for_ecosystem
    (client : World) (package_name ecosystem : string) : io (gen unit) :=
  let query_payload :=
    mkOSVQuery None None {[ "name" := package_name; "ecosystem" := ecosystem ]} None in
  data ← query_osv_api client query_payload;
  io_ret (extract_fixed_versions data).

(** ** What the interpreter and pydantic do with the collected values *)

(** The strings of a list all of whose items are [str]. *)
Definition as_strs (l : list json) : option (list string) :=
  mapM (λ v, match v with JStr s => Some s | _ => None end) l.

(** On lists of [str] the three operations below are what Python
    specifies.  On other lists (values the response schema does not
    allow) they depend on mixed-type hashing and ordering and on the
    pydantic version, and are left open. *)
Record PyRuntime : Type := mkPyRuntime {
  set_order : list string → list string;
  set_order_NoDup : ∀ l, NoDup (set_order l);
  set_order_elem_of : ∀ l x, x ∈ set_order l ↔ x ∈ l;
  list_set_other : list json → pyexn + list json;
  sorted_other : list json → pyexn + list json;
  versions_other : list json → pyexn + list string;
}.

(** [list(set(l))]. *)
Definition py_list_set (rt : PyRuntime) (l : list json) : pyexn + list json :=
  match as_strs l with
  | Some ss => inr (JStr <$> set_order rt ss)
  | None => list_set_other rt l
  end.

(** [sorted(l, reverse=False)]. *)
Definition py_sorted (rt : PyRuntime) (l : list json) : pyexn + list json :=
  match as_strs l with
  | Some ss => inr (JStr <$> merge_sort String.le ss)
  | None => sorted_other rt l
  end.

(** Validation of the field [versions: List[str]]. *)
Definition validate_versions (rt : PyRuntime) (l : list json) : pyexn + list string :=
  match as_strs l with
  | Some ss => inr ss
  | None => versions_other rt l
  end.

(** ** The aggregator *)

(** [for result in results: async for version in result: append]. *)
Fixpoint drain (results : list (gen unit)) (fixed_versions : list json) : pyexn + list json :=
  match results with
  | [] => inr fixed_versions
  | (ys, inl e) :: _ => inl e
  | (ys, inr _) :: rest => drain rest (fixed_versions ++ ys)
  end.

Definition fetch_fixed_versions
    (rt : PyRuntime) (w : World) (package_name : string) (ecosystems : list string)
  : io (list json) :=
  let client := w in
  let tasks := (λ ecosystem, fetch_fixed_versions_for_ecosystem client package_name ecosystem)
                 <$> ecosystems in
  results ← gather tasks;
  fixed_versions ← io_lift (drain results []);
  io_lift (py_list_set rt fixed_versions).

(** ** The request handler *)

Record FixedVersionsResponse : Type := mkFixedVersionsResponse {
  name : string;
  versions : list string;
  timestamp : string;
}.

Definition get_fixed_versions
    (rt : PyRuntime) (w : World) (name : string) (ecosystems : list string)
  : io FixedVersionsResponse :=
  fixed_versions ← fetch_fixed_versions rt w name ecosystems;
  match fixed_versions with
  | [] => io_raise (HTTPException 404 "No fixed versions found")
  | _ =>
      fixed_versions ← io_lift (py_sorted rt fixed_versions);
      versions ← io_lift (validate_versions rt fixed_versions);
      io_ret (mkFixedVersionsResponse name versions (now_isoformat w))
  end.

(** ** The route: query parameters in, HTTP answer out *)

(** The query string: [name] may be missing; [ecosystems] is [None] when
    the parameter does not occur. *)
Record Request : Type := mkRequest {
  query_name : option string;
  query_ecosystems : option (list string);
}.

Inductive Answer : Type :=
  | Ok200 (body : FixedVersionsResponse)
  | ErrorResponse (status : Z) (detail : string)   (* a raised [HTTPException] *)
  | RequestValidationError                          (* 422, from the framework *)
  | InternalServerError (e : pyexn).                (* any other exception *)

(** [Query(..., min_length=1)]. *)
Definition validate_name (o : option string) : option string :=
  match o with
  | Some s => if (1 <=? String.length s)%nat then Some s else None
  | None => None
  end.

(** [Query(["Ubuntu"])]. *)
Definition ecosystems_or_default (o : option (list string)) : list string :=
  default ["Ubuntu"] o.

(** The answer to a request, and the queries posted while serving it. *)
Definition serve (rt : PyRuntime) (w : World) (req : Request) : Answer * list OSVQuery :=
  match validate_name (query_name req) with
  | None => (RequestValidationError, [])
  | Some name =>
      let ecosystems := ecosystems_or_default (query_ecosystems req) in
      match get_fixed_versions rt w name ecosystems [] with
      | (inr body, log) => (Ok200 body, log)
      | (inl (HTTPException status detail), log) => (ErrorResponse status detail, log)
      | (inl e, log) => (InternalServerError e, log)
      end
  end.

(** ** What the program's parts compute, apart from the log *)

(** The query the program builds for a package and an ecosystem. *)
Definition osv_query (package_name ecosystem : string) : OSVQuery :=
  mkOSVQuery None None {[ "name" := package_name; "ecosystem" := ecosystem ]} None.

(** What [query_osv_api] returns. *)
Definition osv_reply (w : World) (q : OSVQuery) : pyexn + json :=
  match http_post w OSV_API_URL q with
  | None => inl TransportError
  | Some r =>
      if bool_decide (200 ≤ status_code r ≤ 299)%Z then response_json r
      else inl (HTTPStatusError (status_code r))
  end.

(** The replies to the queries of a request, in the order of the
    ecosystems. *)
Definition replies (w : World) (package_name : string) (ecosystems : list string)
  : list (pyexn + json) :=
  (λ ecosystem, osv_reply w (osv_query package_name ecosystem)) <$> ecosystems.

(** All the results, or the first exception. *)
Fixpoint first_error {A} (rs : list (pyexn + A)) : pyexn + list A :=
  match rs with
  | [] => inr []
  | inl e :: _ => inl e
  | inr a :: rs' => match first_error rs' with inl e => inl e | inr l => inr (a :: l) end
  end.

(** The three exceptions a query can raise; none is an [HTTPException]. *)
Definition is_query_error (e : pyexn) : Prop :=
  match e with
  | TransportError | HTTPStatusError _ | JSONDecodeError => True
  | _ => False
  end.

(** The query for the ecosystem is answered, with body [d]. *)
Definition answers (w : World) (package_name ecosystem : string) (d : json) : Prop :=
  osv_reply w (osv_query package_name ecosystem) = inr d.

(** The call for the ecosystem fails: no response (transport error), or
    a response whose status is not 2xx. *)
Definition call_fails (w : World) (package_name ecosystem : string) : bool :=
  match http_post w OSV_API_URL (osv_query package_name ecosystem) with
  | None => true
  | Some r => negb (bool_decide (200 ≤ status_code r ≤ 299)%Z)
  end.

Definition answer_versions (a : Answer) : option (list string) :=
  match a with Ok200 body => Some (versions body) | _ => None end.

(** ** The response schema and what the spec says extraction returns *)

(** The list stored under key [k] of a dictionary; empty when the key is
    absent. *)
Definition list_under (k : string) (v : json) : list json :=
  match v with
  | JObj m => match m !! k with Some (JArr l) => l | _ => [] end
  | _ => []
  end.

(** The non-empty [fixed] string of an event, if it has one. *)
Definition fixed_of (event : json) : option string :=
  match event with
  | JObj m =>
      match m !! "fixed" with
      | Some (JStr s) => if decide (s = EmptyString) then None else Some s
      | _ => None
      end
  | _ => None
  end.

(** The spec's words, level by level: traverse vulns, affected, ranges,
    events exhaustively and keep every non-empty [fixed]. *)
Definition spec_range (range_ : json) : list string :=
  event ← list_under "events" range_; option_list (fixed_of event).
Definition spec_affected (affected : json) : list string :=
  range_ ← list_under "ranges" affected; spec_range range_.
Definition spec_vuln (vuln : json) : list string :=
  affected ← list_under "affected" vuln; spec_affected affected.
Definition spec_fixed_versions (data : json) : list string :=
  vuln ← list_under "vulns" data; spec_vuln vuln.

(** [v] is a dictionary whose key [k] is absent or holds a list of items
    that satisfy [P]. *)
Definition shaped_list (P : json → bool) (k : string) (v : json) : bool :=
  match v with
  | JObj m =>
      match m !! k with
      | None => true
      | Some (JArr l) => forallb P l
      | Some _ => false
      end
  | _ => false
  end.

(** The shape [{ vulns: [ { affected: [ { ranges: [ { events:
    [ { fixed?: string, ... } ] } ] } ] } ] }]; every key is optional and
    other keys are free. *)
Definition shaped_event (v : json) : bool :=
  match v with
  | JObj m => match m !! "fixed" with None | Some (JStr _) => true | Some _ => false end
  | _ => false
  end.
Definition shaped_range : json → bool := shaped_list shaped_event "events".
Definition shaped_affected : json → bool := shaped_list shaped_range "ranges".
Definition shaped_vuln : json → bool := shaped_list shaped_affected "affected".
Definition well_shaped : json → bool := shaped_list shaped_vuln "vulns".

(** ** The source's type annotation [List[str]] *)

Definition is_str (v : json) : bool :=
  match v with JStr _ => true | _ => false end.

(** The strings among the values of a list. *)
Definition strs_of (l : list json) : list string :=
  omap (λ v, match v with JStr s => Some s | _ => None end) l.

(** The values the generator yields for a response. *)
Definition yielded (d : json) : list json := (extract_fixed_versions d).1.

(** Every value extracted from a body answered to a query of the request
    is a [str], as the annotation of [extract_fixed_versions] says. *)
Definition fixed_are_str (w : World) (package_name : string) (ecosystems : list string) : bool :=
  forallb (λ r, match r with inr d => forallb is_str (yielded d) | inl _ => true end)
          (replies w package_name ecosystems).

(** A generator that can only raise [TypeError] or [AttributeError]. *)
Definition raises_type_or_attribute {A} (g : gen A) : Prop :=
  match g.2 with
  | inl e => e = TypeError ∨ e = AttributeError
  | inr _ => True
  end.

(** ** A concrete runtime and a concrete world, to run the model *)

Definition ref_runtime : PyRuntime :=
  {| set_order := remove_dups;
     set_order_NoDup := NoDup_remove_dups;
     set_order_elem_of := λ l x, elem_of_remove_dups l x;
     list_set_other := λ _, inl TypeError;
     sorted_other := λ _, inl TypeError;
     versions_other := λ _, inl ValidationError |}.

Definition event_fixed (fx : string) : json := JObj {[ "fixed" := JStr fx ]}.

(** One vulnerability, one affected package, one range, the given events. *)
Definition record_of (events : list json) : json :=
  JObj {[ "vulns" := JArr [ JObj {[ "id" := JStr "OSV-1";
    "affected" := JArr [ JObj {[ "ranges" := JArr [
      JObj {[ "type" := JStr "ECOSYSTEM"; "events" := JArr events ]} ] ]} ] ]} ] ]}.

Definition body_A : json :=
  record_of [ JObj {[ "introduced" := JStr "0" ]}; event_fixed "2.1"; event_fixed EmptyString; event_fixed "1.0" ].
Definition body_B : json :=
  record_of [ event_fixed "1.0"; event_fixed "3.0" ].

(** Ecosystem "A" answers [body_A], "B" answers [body_B], "Ubuntu" and
    "Empty" answer a record without vulnerabilities, "Down" answers 503,
    anything else does not answer. *)
Definition sample_world : World :=
  {| http_post := λ url q,
       if decide (url = OSV_API_URL) then
         match package q !! "ecosystem" with
         | Some eco =>
             if decide (eco = "A") then Some (mkResponse 200 (Some body_A))
             else if decide (eco = "B") then Some (mkResponse 200 (Some body_B))
             else if decide (eco = "Ubuntu") then Some (mkResponse 200 (Some (JObj ∅)))
             else if decide (eco = "Empty") then Some (mkResponse 200 (Some (JObj ∅)))
             else if decide (eco = "Down") then Some (mkResponse 503 None)
             else None
         | None => None
         end
       else None;
     now_isoformat := "2024-01-01T00:00:00" |}.

(** ** Responses whose [fixed] values are of any type *)

Definition is_dict (v : json) : bool :=
  match v with JObj _ => true | _ => false end.

(** The four levels of lists of dictionaries, with nothing asked of what
    an event holds under [fixed]. *)
Definition loosely_shaped : json → bool :=
  shaped_list (shaped_list (shaped_list (shaped_list is_dict "events") "ranges")
                 "affected") "vulns".

(** What an event contributes: the value under [fixed] when it is truthy. *)
Definition truthy_fixed (event : json) : list json :=
  match event with
  | JObj m =>
      match m !! "fixed" with
      | Some v => if truthy v then [v] else []
      | None => []
      end
  | _ => []
  end.

Definition truthy_fixed_values (data : json) : list json :=
  vuln ← list_under "vulns" data;
  affected ← list_under "affected" vuln;
  range_ ← list_under "ranges" affected;
  event ← list_under "events" range_;
  truthy_fixed event.

(** What a loop does with a value that is not a list: nothing for an
    empty string or dictionary, [AttributeError] at the first item of a
    non-empty one, [TypeError] for a value that cannot be iterated. *)
Definition non_list_outcome (v : json) : option (gen unit) :=
  match v with
  | JArr _ => None
  | JStr s => Some (if decide (s = EmptyString) then ([], inr tt) else ([], inl AttributeError))
  | JObj m => Some (if decide (m = ∅) then ([], inr tt) else ([], inl AttributeError))
  | JNull | JBool _ | JInt _ | JFloat _ => Some ([], inl TypeError)
  end.

(** The generator for a body runs to its end. *)
Definition ends_normally (d : json) : Prop :=
  (extract_fixed_versions d).2 = inr tt.

(** The requested ecosystems are all answered, with the bodies [ds]. *)
Definition all_answered (w : World) (package_name : string) (ecosystems : list string)
    (ds : list json) : Prop :=
  Forall2 (answers w package_name) ecosystems ds.

(** A world with a malformed body: "A" answers [body_A], "Null" answers a
    body whose [vulns] is [null], "Mixed" answers a body with a version
    and then an event that is a number. *)
Definition broken_world : World :=
  {| http_post := λ url q,
       match package q !! "ecosystem" with
       | Some eco =>
           if decide (eco = "A") then Some (mkResponse 200 (Some body_A))
           else if decide (eco = "Null") then
             Some (mkResponse 200 (Some (JObj {[ "vulns" := JNull ]})))
           else if decide (eco = "Mixed") then
             Some (mkResponse 200 (Some (record_of [ event_fixed "9.9"; JInt 7 ])))
           else if decide (eco = "Teapot") then
             Some (mkResponse 418 (Some body_A))
           else None
       | None => None
       end;
     now_isoformat := "2024-01-01T00:00:00" |}.

(** * Properties *)

(** ** The model runs *)

Example extract_body_A :
  extract_fixed_versions body_A = ([JStr "2.1"; JStr "1.0"], inr tt).
Proof. vm_compute. reflexivity. Qed.

Example extract_null_vulns :
  extract_fixed_versions (JObj {[ "vulns" := JNull ]}) = ([], inl TypeError).
Proof. vm_compute. reflexivity. Qed.

Example extract_yields_then_raises :
  extract_fixed_versions
    (JObj {[ "vulns" := JArr [ JObj {[ "affected" := JArr [ JObj {[ "ranges" := JArr [
       JObj {[ "events" := JArr [ event_fixed "1.0"; JInt 7 ] ]} ] ]} ] ]} ] ]})
  = ([JStr "1.0"], inl AttributeError).
Proof. vm_compute. reflexivity. Qed.

Example serve_sample_AB :
  serve ref_runtime sample_world (mkRequest (Some "pkg") (Some ["A"; "B"]))
  = (Ok200 (mkFixedVersionsResponse "pkg" ["1.0"; "2.1"; "3.0"] "2024-01-01T00:00:00"),
     [osv_query "pkg" "A"; osv_query "pkg" "B"]).
Proof. vm_compute. reflexivity. Qed.

Example serve_sample_Empty :
  serve ref_runtime sample_world (mkRequest (Some "pkg") (Some ["Empty"]))
  = (ErrorResponse 404 "No fixed versions found", [osv_query "pkg" "Empty"]).
Proof. vm_compute. reflexivity. Qed.

Example serve_sample_Down :
  serve ref_runtime sample_world (mkRequest (Some "pkg") (Some ["A"; "Down"; "B"]))
  = (InternalServerError (HTTPStatusError 503),
     [osv_query "pkg" "A"; osv_query "pkg" "Down"; osv_query "pkg" "B"]).
Proof. vm_compute. reflexivity. Qed.

(** ** The order of strings is the lexicographic order of character codes *)

Lemma String_le_nil_l (t : string) : String.le EmptyString t.
Proof. unfold String.le. by destruct t. Qed.

Lemma String_le_nil_r (a : Ascii.ascii) (s : string) : ¬ String.le (String a s) EmptyString.
Proof. unfold String.le. cbn. auto. Qed.

Lemma String_le_cons (a b : Ascii.ascii) (s t : string) :
  String.le (String a s) (String b t)
  ↔ (Ascii.N_of_ascii a < Ascii.N_of_ascii b)%N ∨ (a = b ∧ String.le s t).
Proof.
  unfold String.le, String.leb. cbn [String.compare].
  unfold Ascii.compare.
  destruct (N.compare_spec (Ascii.N_of_ascii a) (Ascii.N_of_ascii b)) as [H|H|H].
  - assert (a = b) as -> by
      (by rewrite <-(Ascii.ascii_N_embedding a), <-(Ascii.ascii_N_embedding b), H).
    split; [by right|]. intros [?|[_ ?]]; [lia|done].
  - split; [by left|done].
  - split; [done|]. intros [?|[-> _]]; lia.
Qed.

(** ** Generators and loops *)

Lemma gen_bind_ok {A B} (g : gen A) (k : A → gen B) ys a :
  g = (ys, inr a) → gen_bind g k = (ys ++ (k a).1, (k a).2).
Proof. intros ->. simpl. by destruct (k a). Qed.

Lemma gen_for_ok (body : json → gen unit) (f : json → list json) xs :
  (∀ x, x ∈ xs → body x = (f x, inr tt)) →
  gen_for body xs = (xs ≫= f, inr tt).
Proof.
  induction xs as [|x xs IH]; intros Hbody; [done|].
  cbn [gen_for]. unfold mbind at 1, gen_mbind.
  rewrite (gen_bind_ok _ _ (f x) tt) by (apply Hbody; left).
  rewrite IH by (intros y Hy; apply Hbody; by right). done.
Qed.

(** A loop over strings whose body calls [.get] on the item stops at the
    first item: iterating over a dictionary (its keys) or over a string
    (its characters) where a list is expected raises as soon as there is
    an item, whatever the order of the items. *)
Lemma gen_for_strs (body : json → gen unit) (ks : list string) :
  (∀ s, body (JStr s) = ([], inl AttributeError)) →
  gen_for body (JStr <$> ks)
  = match ks with [] => ([], inr tt) | _ => ([], inl AttributeError) end.
Proof. intros H. destruct ks as [|k ks]; [done|]. cbn. by rewrite H. Qed.

Lemma for_in_dict (body : json → gen unit) (m : gmap string json) :
  (∀ s, body (JStr s) = ([], inl AttributeError)) →
  for_in (JObj m) body
  = if decide (m = ∅) then ([], inr tt) else ([], inl AttributeError).
Proof.
  intros H. unfold for_in. cbn. rewrite gen_for_strs by done.
  case_decide as Hm.
  - subst m. by rewrite map_to_list_empty.
  - destruct (map_to_list m) as [|kv l] eqn:Hl; [|done].
    by apply map_to_list_empty_iff in Hl.
Qed.

Lemma extract_bodies_on_str (s : string) :
  extract_event (JStr s) = ([], inl AttributeError)
  ∧ extract_range (JStr s) = ([], inl AttributeError)
  ∧ extract_affected (JStr s) = ([], inl AttributeError)
  ∧ extract_vuln (JStr s) = ([], inl AttributeError).
Proof. done. Qed.

(** One level of the traversal: a dictionary whose key [k] is absent or
    holds a list of items on which the loop body runs to its end. *)
Lemma level_ok (P : json → bool) (k : string) (body : json → gen unit)
    (f : json → list json) (v : json) :
  shaped_list P k v = true →
  (∀ x, P x = true → body x = (f x, inr tt)) →
  (items ← gen_lift (py_get v k (JArr [])); for_in items body)
  = (list_under k v ≫= f, inr tt).
Proof.
  intros Hv Hbody. destruct v as [| | | | | |m]; try discriminate.
  cbn in Hv |- *. destruct (m !! k) as [[| | | | |l|]|]; try discriminate; cbn.
  - rewrite (gen_for_ok body f l).
    + done.
    + intros x Hx. apply Hbody.
      rewrite forallb_forall in Hv. apply Hv. by apply list_elem_of_In.
  - done.
Qed.

Lemma fmap_list_bind {A B C} (f : A → list B) (g : B → C) (l : list A) :
  g <$> (l ≫= f) = l ≫= (λ x, g <$> f x).
Proof.
  induction l as [|x l IH]; [done|].
  by rewrite !bind_cons, fmap_app, IH.
Qed.

(** ** Extraction on responses of the schema's shape *)

Lemma extract_event_shaped event :
  shaped_event event = true →
  extract_event event = (JStr <$> option_list (fixed_of event), inr tt).
Proof.
  destruct event as [| | | | | |m]; try discriminate.
  unfold extract_event. cbn.
  destruct (m !! "fixed") as [[| | | |s| |]|]; try discriminate; cbn; [|done].
  intros _. case_decide as Hs.
  - subst s. done.
  - destruct s; [done|]. done.
Qed.

Lemma extract_range_shaped range_ :
  shaped_range range_ = true →
  extract_range range_ = (JStr <$> spec_range range_, inr tt).
Proof.
  intros H. unfold extract_range, spec_range. rewrite fmap_list_bind.
  apply (level_ok shaped_event); [done|]. apply extract_event_shaped.
Qed.

Lemma extract_affected_shaped affected :
  shaped_affected affected = true →
  extract_affected affected = (JStr <$> spec_affected affected, inr tt).
Proof.
  intros H. unfold extract_affected, spec_affected. rewrite fmap_list_bind.
  apply (level_ok shaped_range); [done|]. apply extract_range_shaped.
Qed.

Lemma extract_vuln_shaped vuln :
  shaped_vuln vuln = true →
  extract_vuln vuln = (JStr <$> spec_vuln vuln, inr tt).
Proof.
  intros H. unfold extract_vuln, spec_vuln. rewrite fmap_list_bind.
  apply (level_ok shaped_affected); [done|]. apply extract_affected_shaped.
Qed.

Lemma extract_well_shaped data :
  well_shaped data = true →
  extract_fixed_versions data = (JStr <$> spec_fixed_versions data, inr tt).
Proof.
  intros H. unfold extract_fixed_versions, spec_fixed_versions.
  rewrite fmap_list_bind.
  apply (level_ok shaped_vuln); [done|]. apply extract_vuln_shaped.
Qed.

Lemma fixed_of_nonempty event s : fixed_of event = Some s → s ≠ EmptyString.
Proof.
  destruct event as [| | | | | |m]; try discriminate. cbn.
  destruct (m !! "fixed") as [[| | | |s'| |]|]; try discriminate.
  case_decide; [discriminate|]. by intros [= ->].
Qed.

Lemma spec_fixed_versions_nonempty data : EmptyString ∉ spec_fixed_versions data.
Proof.
  unfold spec_fixed_versions, spec_vuln, spec_affected, spec_range. intros H.
  repeat (apply list_elem_of_bind in H as (? & H & _)).
  destruct (fixed_of _) as [s|] eqn:Hs; cbn in H; [|by apply elem_of_nil in H].
  apply list_elem_of_singleton in H as <-. by apply fixed_of_nonempty in Hs.
Qed.

(** An absent key is the empty list, at any level. *)
Lemma absent_key_level (k : string) (body : json → gen unit) (m : gmap string json) :
  m !! k = None →
  (items ← gen_lift (py_get (JObj m) k (JArr [])); for_in items body) = ([], inr tt)
  ∧ (items ← gen_lift (py_get (JObj (<[k := JArr []]> m)) k (JArr [])); for_in items body)
    = ([], inr tt).
Proof. intros H. cbn. rewrite H, lookup_insert_eq. done. Qed.

Lemma extract_event_skips (m : gmap string json) :
  m !! "fixed" = None ∨ m !! "fixed" = Some (JStr EmptyString) →
  extract_event (JObj m) = ([], inr tt).
Proof. unfold extract_event. cbn. by intros [-> | ->]. Qed.

(** ** Running the coroutines *)

Lemma query_osv_api_run w q log :
  query_osv_api w q log = (osv_reply w q, log ++ [q]).
Proof.
  unfold query_osv_api, osv_reply, mbind, io_mbind, io_bind, client_post.
  destruct (http_post w OSV_API_URL q) as [r|]; [|done].
  unfold raise_for_status. case_bool_decide; cbn; [|done].
  unfold response_json. by destruct (json_body r).
Qed.

Lemma fetch_for_ecosystem_run w package_name ecosystem log :
  fetch_fixed_versions_for_ecosystem w package_name ecosystem log
  = (match osv_reply w (osv_query package_name ecosystem) with
     | inl e => inl e
     | inr d => inr (extract_fixed_versions d)
     end, log ++ [osv_query package_name ecosystem]).
Proof.
  unfold fetch_fixed_versions_for_ecosystem, mbind, io_mbind, io_bind.
  rewrite query_osv_api_run. fold (osv_query package_name ecosystem).
  by destruct (osv_reply _ _).
Qed.

Lemma gather_fetch_run w package_name ecosystems log :
  gather ((λ ecosystem, fetch_fixed_versions_for_ecosystem w package_name ecosystem)
            <$> ecosystems) log
  = (match first_error (replies w package_name ecosystems) with
     | inl e => inl e
     | inr ds => inr (extract_fixed_versions <$> ds)
     end, log ++ (osv_query package_name <$> ecosystems)).
Proof.
  revert log. induction ecosystems as [|e es IH]; intros log.
  - cbn. by rewrite app_nil_r.
  - cbn [fmap list_fmap gather replies]. rewrite fetch_for_ecosystem_run, IH.
    rewrite <-app_assoc. cbn [app first_error]. f_equal.
    fold (replies w package_name es).
    destruct (osv_reply _ _); [done|]. by destruct (first_error _).
Qed.

Lemma fetch_fixed_versions_run rt w package_name ecosystems log :
  fetch_fixed_versions rt w package_name ecosystems log
  = (match first_error (replies w package_name ecosystems) with
     | inl e => inl e
     | inr ds =>
         match drain (extract_fixed_versions <$> ds) [] with
         | inl e => inl e
         | inr fixed_versions => py_list_set rt fixed_versions
         end
     end, log ++ (osv_query package_name <$> ecosystems)).
Proof.
  unfold fetch_fixed_versions, mbind, io_mbind, io_bind.
  rewrite gather_fetch_run.
  destruct (first_error _) as [e|ds]; [done|].
  destruct (drain _ _) as [e|fv]; [done|]. cbn.
  by destruct (py_list_set rt fv).
Qed.

(** One query per ecosystem is posted, in the order of the list, whether
    or not the request succeeds. *)
Lemma fetch_posts_one_query_per_ecosystem rt w package_name ecosystems log :
  (fetch_fixed_versions rt w package_name ecosystems log).2
  = log ++ (osv_query package_name <$> ecosystems).
Proof. by rewrite fetch_fixed_versions_run. Qed.

Lemma first_error_inr {A} (rs : list (pyexn + A)) (l : list A) :
  first_error rs = inr l ↔ rs = inr <$> l.
Proof.
  revert l. induction rs as [|[e|a] rs IH]; intros l; cbn.
  - split; [intros [= <-]; done|]. by destruct l.
  - split; [done|]. by destruct l.
  - destruct (first_error rs) as [e|l'].
    + split; [done|]. destruct l as [|b l]; [done|]. intros [= -> H].
      by apply IH in H.
    + split.
      * intros [= <-]. cbn. f_equal. by apply IH.
      * destruct l as [|b l]; [done|]. intros [= -> H]. apply IH in H.
        by injection H as ->.
Qed.

Lemma first_error_inl {A} (rs : list (pyexn + A)) (e : pyexn) :
  first_error rs = inl e → inl e ∈ rs.
Proof.
  induction rs as [|[e'|a] rs IH]; cbn; [done| |].
  - intros [= ->]. left.
  - destruct (first_error rs); [|done]. intros [= ->]. right. by apply IH.
Qed.

Lemma first_error_fails {A} (rs : list (pyexn + A)) (e : pyexn) :
  inl e ∈ rs → ∃ e', first_error rs = inl e'.
Proof.
  induction rs as [|[e'|a] rs IH]; cbn; intros H.
  - by apply elem_of_nil in H.
  - eauto.
  - apply elem_of_cons in H as [?|H]; [done|].
    destruct (IH H) as [e' ->]. eauto.
Qed.

Lemma osv_reply_error w q e : osv_reply w q = inl e → is_query_error e.
Proof.
  unfold osv_reply, response_json.
  destruct (http_post w OSV_API_URL q) as [r|]; [|by intros [= <-]].
  case_bool_decide; [|by intros [= <-]].
  destruct (json_body r); [done|]. by intros [= <-].
Qed.

(** [answers] in terms of the response: status 2xx and a body that decodes. *)
Lemma answers_iff w package_name ecosystem d :
  answers w package_name ecosystem d
  ↔ ∃ r, http_post w OSV_API_URL (osv_query package_name ecosystem) = Some r
         ∧ (200 ≤ status_code r ≤ 299)%Z ∧ json_body r = Some d.
Proof.
  unfold answers, osv_reply, response_json. split.
  - destruct (http_post _ _ _) as [r|]; [|done].
    case_bool_decide; [|done]. destruct (json_body r) as [d'|] eqn:Hd; [|done].
    intros [= <-]. eauto.
  - intros (r & -> & Hs & Hd). rewrite bool_decide_true by done. by rewrite Hd.
Qed.

Lemma osv_reply_call_fails w package_name ecosystem :
  call_fails w package_name ecosystem = true →
  ∃ e, osv_reply w (osv_query package_name ecosystem) = inl e.
Proof.
  unfold call_fails, osv_reply.
  destruct (http_post _ _ _) as [r|]; [|eauto].
  destruct (bool_decide _); [done|eauto].
Qed.

Lemma replies_answers w package_name ecosystems ds :
  replies w package_name ecosystems = inr <$> ds
  ↔ Forall2 (answers w package_name) ecosystems ds.
Proof.
  revert ds. induction ecosystems as [|e es IH]; intros [|d ds]; cbn.
  - split; [constructor|done].
  - split; [done|]. intros H. inversion H.
  - split; [done|]. intros H. inversion H.
  - split.
    + intros [= Hd Hds]. constructor; [done | by apply IH].
    + intros H. inversion H as [|???? Hd Hds]; subst.
      unfold answers in Hd. rewrite Hd. f_equal. by apply IH.
Qed.

(** ** Draining the generators *)

Lemma drain_ok (f : json → list json) ds acc :
  drain ((λ d, (f d, inr tt)) <$> ds) acc = inr (acc ++ (ds ≫= f)).
Proof.
  revert acc. induction ds as [|d ds IH]; intros acc; cbn.
  - by rewrite app_nil_r.
  - rewrite IH. by rewrite <-app_assoc.
Qed.

Lemma as_strs_fmap (l : list string) : as_strs (JStr <$> l) = Some l.
Proof.
  unfold as_strs. apply mapM_Some. induction l; constructor; done.
Qed.

Lemma drain_inr (results : list (gen unit)) acc fv :
  drain results acc = inr fv →
  Forall (λ g, g.2 = inr tt) results ∧ fv = acc ++ (results ≫= fst).
Proof.
  revert acc. induction results as [|[ys [e|[]]] rest IH]; intros acc; cbn.
  - intros [= <-]. by rewrite app_nil_r.
  - done.
  - intros H. apply IH in H as [Hrest ->]. split; [by constructor|].
    by rewrite <-app_assoc.
Qed.

Lemma drain_inl (results : list (gen unit)) acc e :
  drain results acc = inl e → ∃ g, g ∈ results ∧ g.2 = inl e.
Proof.
  revert acc. induction results as [|[ys [e'|[]]] rest IH]; intros acc; cbn.
  - done.
  - intros [= ->]. eexists. split; [left|done].
  - intros H. apply IH in H as (g & Hg & He). exists g. split; [by right|done].
Qed.

Lemma drain_all_end (results : list (gen unit)) acc :
  Forall (λ g, g.2 = inr tt) results →
  drain results acc = inr (acc ++ (results ≫= fst)).
Proof.
  intros H. revert acc. induction H as [|[ys r] rest Hg _ IH]; intros acc; cbn.
  - by rewrite app_nil_r.
  - cbn in Hg. subst r. rewrite IH. by rewrite <-app_assoc.
Qed.

Lemma drain_well_shaped ds :
  Forall (λ d, well_shaped d = true) ds →
  drain (extract_fixed_versions <$> ds) [] = inr (JStr <$> (ds ≫= spec_fixed_versions)).
Proof.
  intros H.
  rewrite (Forall_fmap_ext_1 extract_fixed_versions
             (λ d, (JStr <$> spec_fixed_versions d, inr tt)) ds).
  - by rewrite drain_ok, fmap_list_bind.
  - eapply Forall_impl; [done|]. apply extract_well_shaped.
Qed.

Lemma drain_nothing ds :
  Forall (λ d, extract_fixed_versions d = ([], inr tt)) ds →
  drain (extract_fixed_versions <$> ds) [] = inr [].
Proof.
  intros H.
  rewrite (Forall_fmap_ext_1 extract_fixed_versions (λ d, ([], inr tt)) ds) by done.
  rewrite (drain_ok (λ _, [])). cbn. f_equal. clear H.
  induction ds as [|d ds IH]; [done|]. by rewrite bind_cons.
Qed.

Lemma set_order_nil rt : set_order rt [] = [].
Proof.
  destruct (set_order rt []) as [|x l] eqn:H; [done|].
  assert (x ∈ set_order rt []) as Hx by (rewrite H; left).
  apply set_order_elem_of in Hx. by apply elem_of_nil in Hx.
Qed.

Lemma merge_sort_nil_inv (l : list string) : merge_sort String.le l = [] → l = [].
Proof.
  intros H. apply Permutation_nil_r. rewrite <-H. symmetry. apply merge_sort_Permutation.
Qed.

(** Sorting the list of a set: the result is the one duplicate-free
    sorted list with the elements of the set, whatever order the set
    iterates in. *)
Lemma sorted_set_unique rt (l target : list string) :
  NoDup target → Sorted String.le target →
  (∀ x, x ∈ l ↔ x ∈ target) →
  merge_sort String.le (set_order rt l) = target.
Proof.
  intros Hnd Hs Hel. apply (Sorted_unique String.le); [|done|].
  - apply Sorted_merge_sort, _.
  - rewrite merge_sort_Permutation.
    apply NoDup_Permutation; [apply set_order_NoDup | done |].
    intros x. by rewrite set_order_elem_of.
Qed.

Lemma sorted_set_spec rt (l : list string) :
  let vs := merge_sort String.le (set_order rt l) in
  NoDup vs ∧ StronglySorted String.le vs ∧ (∀ x, x ∈ vs ↔ x ∈ l).
Proof.
  intros vs. split_and!.
  - unfold vs. rewrite merge_sort_Permutation. apply set_order_NoDup.
  - apply StronglySorted_merge_sort; apply _.
  - intros x. unfold vs. by rewrite merge_sort_Permutation, set_order_elem_of.
Qed.

(** ** Exceptions of the extraction *)

Lemma gen_bind_raises {A B} (g : gen A) (k : A → gen B) :
  raises_type_or_attribute g → (∀ a, raises_type_or_attribute (k a)) →
  raises_type_or_attribute (gen_bind g k).
Proof.
  unfold raises_type_or_attribute. destruct g as [ys [e|a]]; cbn; [done|].
  intros _ Hk. specialize (Hk a). by destruct (k a).
Qed.

Lemma gen_for_raises (body : json → gen unit) xs :
  (∀ x, raises_type_or_attribute (body x)) →
  raises_type_or_attribute (gen_for body xs).
Proof.
  intros Hbody. induction xs as [|x xs IH]; [done|].
  cbn [gen_for]. by apply gen_bind_raises.
Qed.

Lemma for_in_raises (it : json) (body : json → gen unit) :
  (∀ x, raises_type_or_attribute (body x)) →
  raises_type_or_attribute (for_in it body).
Proof.
  intros Hbody. apply gen_bind_raises.
  - destruct it; cbn; auto.
  - intros xs. by apply gen_for_raises.
Qed.

Lemma get_then_loop_raises (v : json) (k : string) (body : json → gen unit) :
  (∀ x, raises_type_or_attribute (body x)) →
  raises_type_or_attribute
    (items ← gen_lift (py_get v k (JArr [])); for_in items body).
Proof.
  intros Hbody. apply gen_bind_raises.
  - destruct v; cbn; auto.
  - intros items. by apply for_in_raises.
Qed.

Lemma extract_event_raises event : raises_type_or_attribute (extract_event event).
Proof.
  apply gen_bind_raises.
  - destruct event; cbn; auto.
  - intros v. by destruct (truthy v).
Qed.

Lemma extract_fixed_versions_raises data :
  raises_type_or_attribute (extract_fixed_versions data).
Proof.
  repeat (apply get_then_loop_raises; intros ?). apply extract_event_raises.
Qed.

(** ** Lists of [str] values *)

Lemma strs_of_fmap (ss : list string) : strs_of (JStr <$> ss) = ss.
Proof.
  induction ss as [|s ss IH]; [done|].
  unfold strs_of in *. cbn. by rewrite IH.
Qed.

Lemma is_str_strs_of (l : list json) :
  forallb is_str l = true → l = JStr <$> strs_of l.
Proof.
  induction l as [|[| | | |s| |] l IH]; cbn; try done.
  intros H. f_equal. by apply IH.
Qed.

Lemma strs_of_Permutation (l1 l2 : list json) : l1 ≡ₚ l2 → strs_of l1 ≡ₚ strs_of l2.
Proof. intros H. unfold strs_of. by rewrite H. Qed.

Lemma forallb_bind {A B} (P : B → bool) (f : A → list B) (l : list A) :
  forallb P (l ≫= f) = forallb (λ x, forallb P (f x)) l.
Proof.
  induction l as [|x l IH]; [done|].
  by rewrite bind_cons, forallb_app, IH.
Qed.

Lemma fixed_are_str_yielded w package_name ecosystems ds :
  fixed_are_str w package_name ecosystems = true →
  replies w package_name ecosystems = inr <$> ds →
  forallb is_str (ds ≫= yielded) = true.
Proof.
  unfold fixed_are_str. intros H Hr. rewrite Hr in H. clear Hr.
  rewrite forallb_bind. induction ds as [|d ds IH]; [done|].
  cbn in H |- *. apply andb_prop in H as [-> Hds]. by apply IH.
Qed.

Lemma fixed_are_str_Permutation w package_name es1 es2 :
  es1 ≡ₚ es2 →
  fixed_are_str w package_name es1 = true →
  fixed_are_str w package_name es2 = true.
Proof.
  unfold fixed_are_str, replies. intros Hp. rewrite !forallb_forall.
  intros H r Hr. apply H. revert Hr. rewrite <-!list_elem_of_In.
  by rewrite Hp.
Qed.

Lemma fmap_extract_bind_fst (ds : list json) :
  (extract_fixed_versions <$> ds) ≫= fst = ds ≫= yielded.
Proof. induction ds as [|d ds IH]; [done|]. cbn. by rewrite IH. Qed.

(** ** The handler *)

Lemma get_fixed_versions_fails rt w name ecosystems log e :
  first_error (replies w name ecosystems) = inl e →
  get_fixed_versions rt w name ecosystems log
  = (inl e, log ++ (osv_query name <$> ecosystems)).
Proof.
  intros H. unfold get_fixed_versions, mbind, io_mbind, io_bind.
  by rewrite fetch_fixed_versions_run, H.
Qed.

Lemma get_fixed_versions_raises rt w name ecosystems ds log e :
  first_error (replies w name ecosystems) = inr ds →
  drain (extract_fixed_versions <$> ds) [] = inl e →
  get_fixed_versions rt w name ecosystems log
  = (inl e, log ++ (osv_query name <$> ecosystems)).
Proof.
  intros Hr Hd. unfold get_fixed_versions, mbind, io_mbind, io_bind.
  by rewrite fetch_fixed_versions_run, Hr, Hd.
Qed.

Lemma get_fixed_versions_strs rt w name ecosystems ds ss log :
  first_error (replies w name ecosystems) = inr ds →
  drain (extract_fixed_versions <$> ds) [] = inr (JStr <$> ss) →
  get_fixed_versions rt w name ecosystems log
  = (match set_order rt ss with
     | [] => inl (HTTPException 404 "No fixed versions found")
     | vs => inr (mkFixedVersionsResponse name (merge_sort String.le vs) (now_isoformat w))
     end, log ++ (osv_query name <$> ecosystems)).
Proof.
  intros Hr Hd.
  unfold get_fixed_versions, mbind, io_mbind, io_bind.
  rewrite fetch_fixed_versions_run, Hr, Hd.
  unfold py_list_set. rewrite as_strs_fmap. cbn.
  destruct (set_order rt _) as [|v vs] eqn:Hvs; [done|].
  rewrite <-Hvs. cbn -[merge_sort].
  unfold py_sorted. rewrite as_strs_fmap. cbn -[merge_sort].
  unfold validate_versions. rewrite as_strs_fmap. cbn -[merge_sort].
  rewrite Hvs. done.
Qed.

Lemma validate_name_nonempty name : name ≠ EmptyString → validate_name (Some name) = Some name.
Proof. by destruct name. Qed.

(** What a valid request is answered with, when the extracted values are
    [str]: the cases of the handler. *)
Lemma serve_typed rt w name ecos :
  name ≠ EmptyString →
  fixed_are_str w name (ecosystems_or_default ecos) = true →
  serve rt w (mkRequest (Some name) ecos)
  = (match first_error (replies w name (ecosystems_or_default ecos)) with
     | inl e => InternalServerError e
     | inr ds =>
         match drain (extract_fixed_versions <$> ds) [] with
         | inl e => InternalServerError e
         | inr fixed_versions =>
             match set_order rt (strs_of fixed_versions) with
             | [] => ErrorResponse 404 "No fixed versions found"
             | vs => Ok200 (mkFixedVersionsResponse name (merge_sort String.le vs)
                              (now_isoformat w))
             end
         end
     end, osv_query name <$> ecosystems_or_default ecos).
Proof.
  intros Hname Htyped. unfold serve. cbn [query_name query_ecosystems].
  rewrite validate_name_nonempty by done.
  destruct (first_error (replies w name _)) as [e|ds] eqn:Hr.
  - rewrite (get_fixed_versions_fails _ _ _ _ _ e) by done. cbn [app].
    apply first_error_inl, list_elem_of_fmap in Hr as (eco & Hr & _).
    symmetry in Hr. apply osv_reply_error in Hr. by destruct e.
  - destruct (drain _ _) as [e|fv] eqn:Hd.
    + rewrite (get_fixed_versions_raises _ _ _ _ ds _ e) by done. cbn [app].
      apply drain_inl in Hd as (g & Hg & He).
      apply list_elem_of_fmap in Hg as (d & -> & _).
      pose proof (extract_fixed_versions_raises d) as Hraise.
      unfold raises_type_or_attribute in Hraise. rewrite He in Hraise.
      by destruct Hraise as [-> | ->].
    + pose proof Hd as Hfv. apply drain_inr in Hfv as [_ Hfv]. cbn in Hfv.
      rewrite fmap_extract_bind_fst in Hfv.
      assert (fv = JStr <$> strs_of fv) as Hstr.
      { apply is_str_strs_of. rewrite Hfv.
        apply first_error_inr in Hr. eauto using fixed_are_str_yielded. }
      rewrite Hstr in Hd.
      rewrite (get_fixed_versions_strs _ _ _ _ ds (strs_of fv)) by done.
      cbn [app]. by destruct (set_order rt _).
Qed.

Lemma get_fixed_versions_nothing rt w name ecosystems ds log :
  replies w name ecosystems = inr <$> ds →
  Forall (λ d, extract_fixed_versions d = ([], inr tt)) ds →
  get_fixed_versions rt w name ecosystems log
  = (inl (HTTPException 404 "No fixed versions found"),
     log ++ (osv_query name <$> ecosystems)).
Proof.
  intros Hr Hds. apply first_error_inr in Hr.
  rewrite (get_fixed_versions_strs _ _ _ _ ds []); [|done|by apply drain_nothing].
  by rewrite set_order_nil.
Qed.

Lemma get_fixed_versions_shaped rt w name ecosystems ds log :
  replies w name ecosystems = inr <$> ds →
  Forall (λ d, well_shaped d = true) ds →
  get_fixed_versions rt w name ecosystems log
  = (match set_order rt (ds ≫= spec_fixed_versions) with
     | [] => inl (HTTPException 404 "No fixed versions found")
     | vs => inr (mkFixedVersionsResponse name (merge_sort String.le vs) (now_isoformat w))
     end, log ++ (osv_query name <$> ecosystems)).
Proof.
  intros Hr Hds. apply first_error_inr in Hr.
  apply get_fixed_versions_strs with ds; [done|]. by apply drain_well_shaped.
Qed.

Lemma get_fixed_versions_log rt w name ecosystems log :
  (get_fixed_versions rt w name ecosystems log).2
  = log ++ (osv_query name <$> ecosystems).
Proof.
  unfold get_fixed_versions, mbind, io_mbind, io_bind.
  rewrite fetch_fixed_versions_run.
  destruct (first_error _) as [e|ds]; [done|].
  destruct (drain _ _) as [e|fv]; [done|].
  destruct (py_list_set rt fv) as [e|[|v vs]]; [done|done|].
  cbn. destruct (py_sorted rt (v :: vs)) as [e|s]; [done|].
  cbn. by destruct (validate_versions rt s).
Qed.

Lemma serve_log rt w name ecos :
  name ≠ EmptyString →
  (serve rt w (mkRequest (Some name) ecos)).2
  = osv_query name <$> ecosystems_or_default ecos.
Proof.
  intros Hname. unfold serve. cbn [query_name query_ecosystems].
  rewrite validate_name_nonempty by done.
  pose proof (get_fixed_versions_log rt w name (ecosystems_or_default ecos) []) as H.
  destruct (get_fixed_versions _ _ _ _ _) as [[e|body] log]; cbn in H |- *; [|done].
  by destruct e.
Qed.

Lemma serve_fails rt w name ecos e :
  name ≠ EmptyString →
  first_error (replies w name (ecosystems_or_default ecos)) = inl e →
  is_query_error e
  ∧ (serve rt w (mkRequest (Some name) ecos)).1 = InternalServerError e.
Proof.
  intros Hname Hr. unfold serve. cbn [query_name query_ecosystems].
  rewrite validate_name_nonempty by done.
  rewrite (get_fixed_versions_fails _ _ _ _ _ e) by done.
  apply first_error_inl, list_elem_of_fmap in Hr as (eco & Hr & _).
  symmetry in Hr. apply osv_reply_error in Hr. by destruct e.
Qed.

(** The versions of the answer depend on the merged values only through
    their set. *)
Lemma merged_answer_versions rt1 rt2 (l1 l2 : list string) name now :
  (∀ x, x ∈ l1 ↔ x ∈ l2) →
  answer_versions
    (match set_order rt1 l1 with
     | [] => ErrorResponse 404 "No fixed versions found"
     | vs => Ok200 (mkFixedVersionsResponse name (merge_sort String.le vs) now)
     end)
  = answer_versions
    (match set_order rt2 l2 with
     | [] => ErrorResponse 404 "No fixed versions found"
     | vs => Ok200 (mkFixedVersionsResponse name (merge_sort String.le vs) now)
     end).
Proof.
  intros Hel.
  assert (merge_sort String.le (set_order rt1 l1)
          = merge_sort String.le (set_order rt2 l2)) as Heq.
  { destruct (sorted_set_spec rt2 l2) as (Hnd & Hs & Hx).
    apply sorted_set_unique.
    - done.
    - by apply StronglySorted_Sorted.
    - intros x. by rewrite Hx. }
  destruct (set_order rt1 l1) as [|v1 vs1] eqn:H1;
    destruct (set_order rt2 l2) as [|v2 vs2] eqn:H2; cbn -[merge_sort].
  - done.
  - symmetry in Heq. by apply merge_sort_nil_inv in Heq.
  - by apply merge_sort_nil_inv in Heq.
  - by rewrite Heq.
Qed.

(** ** The claims *)

(** Claim C1. For a valid request (non-empty package name, any list of
    ecosystems, given or defaulted) for which the extracted values are
    [str], the [versions] list of every success response has no duplicate
    entries and is sorted ascending in the lexicographic order of
    strings, whatever order the set iterates in. *)
Theorem versions_nodup_sorted rt w name ecos body log :
  name ≠ EmptyString →
  fixed_are_str w name (ecosystems_or_default ecos) = true →
  serve rt w (mkRequest (Some name) ecos) = (Ok200 body, log) →
  NoDup (versions body) ∧ StronglySorted String.le (versions body).
Proof.
  intros Hname Htyped. rewrite serve_typed by done.
  destruct (first_error _) as [e|ds]; [done|].
  destruct (drain _ _) as [e|fv]; [done|].
  destruct (set_order rt _) as [|v vs] eqn:Hvs; [done|].
  intros [= <- _]. cbn [versions]. rewrite <-Hvs.
  destruct (sorted_set_spec rt (strs_of fv)) as (? & ? & _). done.
Qed.

Lemma versions_nodup_sorted_witness :
  NoDup ["1.0"; "2.1"; "3.0"] ∧ StronglySorted String.le ["1.0"; "2.1"; "3.0"].
Proof.
  apply (versions_nodup_sorted ref_runtime sample_world "pkg" (Some ["A"; "B"])
           (mkFixedVersionsResponse "pkg" ["1.0"; "2.1"; "3.0"] "2024-01-01T00:00:00")
           [osv_query "pkg" "A"; osv_query "pkg" "B"]).
  - discriminate.
  - vm_compute. reflexivity.
  - vm_compute. reflexivity.
Defined.

(** Claim C2. When every query of a valid request is answered and no
    extraction yields a value, the answer is the 404 error with the detail
    message "No fixed versions found", and it is not a success response;
    and, the extracted values being [str], no success response carries an
    empty [versions] list. *)
Theorem empty_result_is_not_found rt w name ecos :
  name ≠ EmptyString →
  (∀ ds, Forall2 (answers w name) (ecosystems_or_default ecos) ds →
         Forall (λ d, extract_fixed_versions d = ([], inr tt)) ds →
     (serve rt w (mkRequest (Some name) ecos)).1
       = ErrorResponse 404 "No fixed versions found"
     ∧ ∀ body, (serve rt w (mkRequest (Some name) ecos)).1 ≠ Ok200 body)
  ∧ (fixed_are_str w name (ecosystems_or_default ecos) = true →
     ∀ body, (serve rt w (mkRequest (Some name) ecos)).1 = Ok200 body →
             versions body ≠ []).
Proof.
  intros Hname. split.
  - intros ds Hds Hnone. apply replies_answers in Hds.
    assert ((serve rt w (mkRequest (Some name) ecos)).1
            = ErrorResponse 404 "No fixed versions found") as ->; [|done].
    unfold serve. cbn [query_name query_ecosystems].
    rewrite validate_name_nonempty by done.
    by rewrite (get_fixed_versions_nothing _ _ _ _ ds).
  - intros Htyped body. rewrite serve_typed by done. cbn [fst].
    destruct (first_error _) as [e|ds]; [done|].
    destruct (drain _ _) as [e|fv]; [done|].
    destruct (set_order rt _) as [|v vs] eqn:Hvs; [done|].
    intros [= <-]. cbn -[merge_sort].
    intros Hnil. by apply merge_sort_nil_inv in Hnil.
Qed.

Lemma empty_result_is_not_found_witness :
  (serve ref_runtime sample_world (mkRequest (Some "pkg") (Some ["Empty"; "Ubuntu"]))).1
  = ErrorResponse 404 "No fixed versions found".
Proof.
  apply (proj1 (empty_result_is_not_found ref_runtime sample_world "pkg"
                  (Some ["Empty"; "Ubuntu"]) ltac:(discriminate))
               [JObj ∅; JObj ∅]).
  - repeat constructor.
  - repeat constructor.
Defined.

(** Claim C3. On a response of the schema's shape, extraction ends without an
    exception and yields exactly the non-empty [fixed] strings met by the
    exhaustive traversal vulns, affected, ranges, events, in that order;
    no empty string is among them, and an event whose [fixed] is absent or
    empty yields nothing and raises nothing. *)
Theorem extract_fixed_versions_exact data :
  well_shaped data = true →
  extract_fixed_versions data = (JStr <$> spec_fixed_versions data, inr tt)
  ∧ (EmptyString ∉ spec_fixed_versions data)
  ∧ (∀ m : gmap string json,
       m !! "fixed" = None ∨ m !! "fixed" = Some (JStr EmptyString) →
       extract_event (JObj m) = ([], inr tt)).
Proof.
  intros H. split_and!.
  - by apply extract_well_shaped.
  - apply spec_fixed_versions_nonempty.
  - apply extract_event_skips.
Qed.

Lemma extract_fixed_versions_exact_witness :
  extract_fixed_versions body_A = (JStr <$> ["2.1"; "1.0"], inr tt).
Proof.
  apply (extract_fixed_versions_exact body_A). vm_compute. reflexivity.
Defined.

(** Claim C4. If the call for one requested ecosystem of a valid request fails
    (no response, or a status that is not 2xx), the aggregator raises
    instead of returning a list, and the exception, one raised by a
    query, reaches the route unhandled: the answer is the generic server
    error, whatever the other ecosystems answered. *)
Theorem failed_query_fails_request rt w name ecos ecosystem log :
  name ≠ EmptyString →
  ecosystem ∈ ecosystems_or_default ecos →
  call_fails w name ecosystem = true →
  ∃ e, is_query_error e
       ∧ (fetch_fixed_versions rt w name (ecosystems_or_default ecos) log).1 = inl e
       ∧ (serve rt w (mkRequest (Some name) ecos)).1 = InternalServerError e.
Proof.
  intros Hname Hin Hfail.
  destruct (osv_reply_call_fails _ _ _ Hfail) as [e0 He0].
  destruct (first_error_fails (replies w name (ecosystems_or_default ecos)) e0)
    as [e He].
  { rewrite <-He0. unfold replies. apply list_elem_of_fmap. eauto. }
  exists e. destruct (serve_fails rt w name ecos e Hname He) as [Hq Hs].
  split_and!; [done| |done].
  by rewrite fetch_fixed_versions_run, He.
Qed.

Lemma failed_query_fails_request_witness :
  ∃ e, is_query_error e
       ∧ (fetch_fixed_versions ref_runtime sample_world "pkg" ["A"; "Down"; "B"] []).1 = inl e
       ∧ (serve ref_runtime sample_world (mkRequest (Some "pkg") (Some ["A"; "Down"; "B"]))).1
         = InternalServerError e.
Proof.
  apply (failed_query_fails_request ref_runtime sample_world "pkg"
           (Some ["A"; "Down"; "B"]) "Down" []).
  - discriminate.
  - apply (bool_decide_unpack _). vm_compute. reflexivity.
  - vm_compute. reflexivity.
Defined.

(** Claim C5. For a package queried over two ecosystems whose records, of the
    schema's shape, contain the fixed versions {"2.1", "1.0"} and
    {"1.0", "3.0"}, the answer is the success response with [versions]
    equal to ["1.0"; "2.1"; "3.0"]. *)
Theorem two_ecosystems_merged rt w name eA eB dA dB :
  name ≠ EmptyString →
  answers w name eA dA → answers w name eB dB →
  well_shaped dA = true → well_shaped dB = true →
  (∀ v, v ∈ spec_fixed_versions dA ↔ v ∈ ["2.1"; "1.0"]) →
  (∀ v, v ∈ spec_fixed_versions dB ↔ v ∈ ["1.0"; "3.0"]) →
  (serve rt w (mkRequest (Some name) (Some [eA; eB]))).1
  = Ok200 (mkFixedVersionsResponse name ["1.0"; "2.1"; "3.0"] (now_isoformat w)).
Proof.
  intros Hname HA HB HsA HsB HvA HvB.
  assert (replies w name [eA; eB] = inr <$> [dA; dB]) as Hr
    by (apply replies_answers; repeat constructor; done).
  unfold serve. cbn [query_name query_ecosystems ecosystems_or_default default].
  rewrite validate_name_nonempty by done.
  rewrite (get_fixed_versions_shaped _ _ _ _ [dA; dB]) by (repeat constructor; done).
  assert (merge_sort String.le (set_order rt ([dA; dB] ≫= spec_fixed_versions))
          = ["1.0"; "2.1"; "3.0"]) as Hsorted.
  { apply sorted_set_unique.
    - apply (bool_decide_unpack _). vm_compute. reflexivity.
    - apply (bool_decide_unpack _). vm_compute. reflexivity.
    - intros v. rewrite bind_cons, bind_singleton, elem_of_app, HvA, HvB.
      rewrite !elem_of_cons, !elem_of_nil. tauto. }
  destruct (set_order rt _) as [|v vs] eqn:Hvs; [done|].
  cbn -[merge_sort]. by rewrite Hsorted.
Qed.

Lemma two_ecosystems_merged_witness :
  (serve ref_runtime sample_world (mkRequest (Some "pkg") (Some ["A"; "B"]))).1
  = Ok200 (mkFixedVersionsResponse "pkg" ["1.0"; "2.1"; "3.0"] "2024-01-01T00:00:00").
Proof.
  apply (two_ecosystems_merged ref_runtime sample_world "pkg" "A" "B" body_A body_B).
  - discriminate.
  - reflexivity.
  - reflexivity.
  - vm_compute. reflexivity.
  - vm_compute. reflexivity.
  - intros v. change (spec_fixed_versions body_A) with ["2.1"; "1.0"]. reflexivity.
  - intros v. change (spec_fixed_versions body_B) with ["1.0"; "3.0"]. reflexivity.
Defined.

(** Claim C6. When the [ecosystems] parameter is omitted the list of ecosystems
    is exactly ["Ubuntu"]: the request is served as the request that
    names "Ubuntu" alone, and for a non-empty name the one query posted
    is the query for "Ubuntu". *)
Theorem default_ecosystems_is_ubuntu rt w (n : option string) :
  ecosystems_or_default None = ["Ubuntu"]
  ∧ serve rt w (mkRequest n None) = serve rt w (mkRequest n (Some ["Ubuntu"]))
  ∧ (∀ c s, (serve rt w (mkRequest (Some (String c s)) None)).2
            = [osv_query (String c s) "Ubuntu"]).
Proof.
  split_and!; [done|done|].
  intros c s. by rewrite serve_log.
Qed.

(** Claim C7. The versions of the answer do not depend on the order of the
    requested ecosystems, nor on the order in which a set iterates: for
    lists of ecosystems that are permutations of each other, the
    extracted values being [str], the two answers carry the same
    [versions] list, or neither is a success. *)
Theorem versions_permutation_invariant rt1 rt2 w name es1 es2 :
  es1 ≡ₚ es2 →
  fixed_are_str w name es1 = true →
  answer_versions (serve rt1 w (mkRequest (Some name) (Some es1))).1
  = answer_versions (serve rt2 w (mkRequest (Some name) (Some es2))).1.
Proof.
  intros Hp Hs1. destruct (decide (name = EmptyString)) as [->|Hname]; [done|].
  pose proof (fixed_are_str_Permutation _ _ _ _ Hp Hs1) as Hs2.
  rewrite (serve_typed rt1 w name (Some es1)), (serve_typed rt2 w name (Some es2))
    by done.
  change (ecosystems_or_default (Some es1)) with es1.
  change (ecosystems_or_default (Some es2)) with es2. cbn [fst].
  assert (replies w name es1 ≡ₚ replies w name es2) as Hrp
    by (unfold replies; by rewrite Hp).
  destruct (first_error (replies w name es1)) as [e1|ds1] eqn:H1.
  { apply first_error_inl in H1. rewrite Hrp in H1.
    apply first_error_fails in H1 as [e2 ->]. done. }
  apply first_error_inr in H1. rewrite H1 in Hrp. symmetry in Hrp.
  apply Permutation_map_inv in Hrp as (ds2 & H2 & Hds).
  change (map inr ds2) with (@inr pyexn json <$> ds2) in H2.
  apply first_error_inr in H2. rewrite H2.
  assert (∀ dsa dsb, dsa ≡ₚ dsb → ∀ fva,
            drain (extract_fixed_versions <$> dsa) [] = inr fva →
            ∃ fvb, drain (extract_fixed_versions <$> dsb) [] = inr fvb ∧ fva ≡ₚ fvb)
    as Hdrain.
  { intros dsa dsb Hab fva Ha. apply drain_inr in Ha as [Hends ->].
    rewrite Hab in Hends. eexists. split; [by apply drain_all_end|].
    cbn. by rewrite Hab. }
  destruct (drain (extract_fixed_versions <$> ds1) []) as [e1|fv1] eqn:Hd1;
    destruct (drain (extract_fixed_versions <$> ds2) []) as [e2|fv2] eqn:Hd2.
  - done.
  - destruct (Hdrain ds2 ds1 (symmetry Hds) fv2 Hd2) as (fv & Hfv & _).
    congruence.
  - destruct (Hdrain ds1 ds2 Hds fv1 Hd1) as (fv & Hfv & _). congruence.
  - destruct (Hdrain ds1 ds2 Hds fv1 Hd1) as (fv & Hfv & Hperm).
    assert (fv = fv2) as -> by congruence.
    apply merged_answer_versions. intros x.
    by rewrite (strs_of_Permutation _ _ Hperm).
Qed.

Lemma versions_permutation_invariant_witness :
  answer_versions (serve ref_runtime sample_world (mkRequest (Some "pkg") (Some ["A"; "B"]))).1
  = answer_versions (serve ref_runtime sample_world (mkRequest (Some "pkg") (Some ["B"; "A"]))).1.
Proof.
  apply (versions_permutation_invariant ref_runtime ref_runtime sample_world "pkg"
           ["A"; "B"] ["B"; "A"]).
  - apply perm_swap.
  - vm_compute. reflexivity.
Defined.

(** Claim C8. A request without [name], or with the empty [name], is answered
    with the validation error, and no query is posted. *)
Theorem invalid_name_rejected rt w ecos :
  serve rt w (mkRequest None ecos) = (RequestValidationError, [])
  ∧ serve rt w (mkRequest (Some EmptyString) ecos) = (RequestValidationError, []).
Proof. done. Qed.

(** Claim C10. On a response of the schema's shape, in which any of the keys
    may be absent at any level, extraction raises nothing; and at each of
    the four levels a dictionary without the key yields nothing and
    raises nothing, exactly as the dictionary with the key set to the
    empty list. *)
Theorem extract_fixed_versions_total data :
  well_shaped data = true →
  (extract_fixed_versions data).2 = inr tt
  ∧ (∀ m : gmap string json, m !! "vulns" = None →
       extract_fixed_versions (JObj m) = ([], inr tt)
       ∧ extract_fixed_versions (JObj (<["vulns" := JArr []]> m)) = ([], inr tt))
  ∧ (∀ m : gmap string json, m !! "affected" = None →
       extract_vuln (JObj m) = ([], inr tt)
       ∧ extract_vuln (JObj (<["affected" := JArr []]> m)) = ([], inr tt))
  ∧ (∀ m : gmap string json, m !! "ranges" = None →
       extract_affected (JObj m) = ([], inr tt)
       ∧ extract_affected (JObj (<["ranges" := JArr []]> m)) = ([], inr tt))
  ∧ (∀ m : gmap string json, m !! "events" = None →
       extract_range (JObj m) = ([], inr tt)
       ∧ extract_range (JObj (<["events" := JArr []]> m)) = ([], inr tt)).
Proof.
  intros H. split_and!.
  - by rewrite extract_well_shaped.
  - intros m. apply absent_key_level.
  - intros m. apply absent_key_level.
  - intros m. apply absent_key_level.
  - intros m. apply absent_key_level.
Qed.

Lemma extract_fixed_versions_total_witness :
  (extract_fixed_versions (JObj {[ "vulns" := JArr [ JObj ∅;
      JObj {[ "affected" := JArr [ JObj {[ "package" := JStr "p" ]} ] ]} ] ]})).2 = inr tt.
Proof.
  apply (extract_fixed_versions_total (JObj {[ "vulns" := JArr [ JObj ∅;
      JObj {[ "affected" := JArr [ JObj {[ "package" := JStr "p" ]} ] ]} ] ]})).
  vm_compute. reflexivity.
Defined.

(** * Further properties of the code *)

(** ** What the generator yields *)

Lemma gen_bind_yields {A B} (P : json → Prop) (g : gen A) (k : A → gen B) :
  Forall P g.1 → (∀ a, Forall P (k a).1) → Forall P (gen_bind g k).1.
Proof.
  destruct g as [ys [e|a]]; cbn; [done|].
  intros Hys Hk. specialize (Hk a). destruct (k a) as [zs r]. cbn in *.
  by apply Forall_app.
Qed.

Lemma gen_lift_yields {A} (P : json → Prop) (r : pyexn + A) : Forall P (gen_lift r).1.
Proof. by destruct r. Qed.

Lemma gen_for_yields (P : json → Prop) (body : json → gen unit) xs :
  (∀ x, Forall P (body x).1) → Forall P (gen_for body xs).1.
Proof.
  intros Hbody. induction xs as [|x xs IH]; [done|].
  cbn [gen_for]. by apply gen_bind_yields.
Qed.

Lemma get_then_loop_yields (P : json → Prop) (v : json) (k : string)
    (body : json → gen unit) :
  (∀ x, Forall P (body x).1) →
  Forall P (items ← gen_lift (py_get v k (JArr [])); for_in items body).1.
Proof.
  intros Hbody. apply gen_bind_yields; [apply gen_lift_yields|].
  intros items. apply gen_bind_yields; [apply gen_lift_yields|].
  intros xs. by apply gen_for_yields.
Qed.

Lemma extract_event_yields event :
  Forall (λ v, truthy v = true) (extract_event event).1.
Proof.
  apply gen_bind_yields; [apply gen_lift_yields|].
  intros v. destruct (truthy v) eqn:Hv; cbn; [|done]. by repeat constructor.
Qed.

(** Property X1. Whatever the response is, extraction raises no exception other
    than [TypeError] and [AttributeError]; and a response that is not a
    dictionary raises [AttributeError] before anything is yielded. *)
Theorem extraction_exceptions data :
  match (extract_fixed_versions data).2 with
  | inl e => e = TypeError ∨ e = AttributeError
  | inr _ => True
  end
  ∧ (is_dict data = false → extract_fixed_versions data = ([], inl AttributeError)).
Proof.
  split.
  - apply extract_fixed_versions_raises.
  - by destruct data.
Qed.

Lemma yielded_truthy data : Forall (λ v, truthy v = true) (yielded data).
Proof.
  unfold yielded. repeat (apply get_then_loop_yields; intros ?).
  apply extract_event_yields.
Qed.

(** Property X2. Whatever the response is, well formed or not, every value the
    generator yields is truthy: it never yields [None], an empty string,
    zero, [False] or an empty container, also before an exception. *)
Theorem yielded_values_truthy data :
  Forall (λ v, truthy v = true) (yielded data)
  ∧ (JNull ∉ yielded data)
  ∧ (JStr EmptyString ∉ yielded data).
Proof.
  pose proof (yielded_truthy data) as H.
  split_and!; [done| |]; intros Hin;
    by apply (proj1 (Forall_forall _ _) H) in Hin.
Qed.

Lemma extract_event_dict event :
  is_dict event = true → extract_event event = (truthy_fixed event, inr tt).
Proof.
  destruct event as [| | | | | |m]; try discriminate. intros _.
  unfold extract_event. cbn. destruct (m !! "fixed") as [v|]; cbn; [|done].
  by destruct (truthy v).
Qed.

(** Property X3. On a response with the four levels of lists of dictionaries,
    whatever the events hold under [fixed], extraction ends without an
    exception and yields, in traversal order, exactly the [fixed] values
    that are truthy, unchanged: a number or a list under [fixed] is
    yielded as it is, not converted and not rejected. *)
Theorem extraction_keeps_truthy_fixed data :
  loosely_shaped data = true →
  extract_fixed_versions data = (truthy_fixed_values data, inr tt).
Proof.
  intros H. unfold extract_fixed_versions, truthy_fixed_values.
  eapply level_ok; [exact H|]. intros vuln Hvuln.
  unfold extract_vuln. eapply level_ok; [exact Hvuln|]. intros affected Haffected.
  unfold extract_affected. eapply level_ok; [exact Haffected|]. intros range_ Hrange.
  unfold extract_range. eapply level_ok; [exact Hrange|].
  apply extract_event_dict.
Qed.

Lemma extraction_keeps_truthy_fixed_witness :
  extract_fixed_versions
    (record_of [ JObj {[ "fixed" := JInt 5 ]}; JObj {[ "fixed" := JInt 0 ]};
                 JObj {[ "fixed" := JArr [JNull] ]}; event_fixed "1.0" ])
  = ([JInt 5; JArr [JNull]; JStr "1.0"], inr tt).
Proof.
  assert (truthy_fixed_values
            (record_of [ JObj {[ "fixed" := JInt 5 ]}; JObj {[ "fixed" := JInt 0 ]};
                         JObj {[ "fixed" := JArr [JNull] ]}; event_fixed "1.0" ])
          = [JInt 5; JArr [JNull]; JStr "1.0"]) as <- by (vm_compute; reflexivity).
  apply extraction_keeps_truthy_fixed. vm_compute. reflexivity.
Defined.

Lemma for_in_non_list (body : json → gen unit) (v : json) (o : gen unit) :
  (∀ s, body (JStr s) = ([], inl AttributeError)) →
  non_list_outcome v = Some o → for_in v body = o.
Proof.
  intros Hbody. destruct v as [| | | |s|l|m]; cbn; try by intros [= <-].
  - intros [= <-]. unfold for_in. destruct s as [|c s]; [done|].
    cbn. by rewrite Hbody.
  - intros [= <-]. by apply for_in_dict.
Qed.

Lemma get_present_loop (m : gmap string json) (k : string) (v : json)
    (body : json → gen unit) :
  (items ← gen_lift (py_get (JObj (<[k := v]> m)) k (JArr [])); for_in items body)
  = for_in v body.
Proof. cbn. rewrite lookup_insert_eq. cbn. by destruct (for_in v body). Qed.

(** Property X4. A key that holds something other than a list, at any of the four
    levels: an empty string or an empty dictionary is passed over like an
    empty list; a non-empty string or dictionary raises [AttributeError];
    [null], a boolean or a number raises [TypeError]; nothing is yielded
    in either case. *)
Theorem non_list_under_key (v : json) (o : gen unit) (m : gmap string json) :
  non_list_outcome v = Some o →
  extract_fixed_versions (JObj (<["vulns" := v]> m)) = o
  ∧ extract_vuln (JObj (<["affected" := v]> m)) = o
  ∧ extract_affected (JObj (<["ranges" := v]> m)) = o
  ∧ extract_range (JObj (<["events" := v]> m)) = o.
Proof.
  intros Ho.
  unfold extract_fixed_versions, extract_vuln, extract_affected, extract_range.
  rewrite !get_present_loop.
  pose proof (extract_bodies_on_str) as Hstr.
  split_and!; apply for_in_non_list; try done; intros s; apply (Hstr s).
Qed.

Lemma non_list_under_key_witness :
  extract_fixed_versions (JObj (<["vulns" := JObj {[ "id" := JStr "x" ]}]> ∅))
  = ([], inl AttributeError).
Proof.
  apply (non_list_under_key (JObj {[ "id" := JStr "x" ]}) ([], inl AttributeError) ∅).
  vm_compute. reflexivity.
Defined.

(** ** What the handler answers *)

Lemma set_order_nil_inv rt (l : list string) : set_order rt l = [] → l = [].
Proof.
  intros H. destruct l as [|x l]; [done|].
  assert (x ∈ set_order rt (x :: l)) as Hx by (apply set_order_elem_of; left).
  rewrite H in Hx. by apply elem_of_nil in Hx.
Qed.

Lemma elem_of_strs_of (l : list json) (s : string) : s ∈ strs_of l ↔ JStr s ∈ l.
Proof.
  unfold strs_of. rewrite list_elem_of_omap. split.
  - intros (v & Hv & Hs). destruct v; try discriminate. by injection Hs as ->.
  - intros H. by exists (JStr s).
Qed.

Lemma elem_of_fmap_inr {A} (ds : list A) (d : A) :
  @inr pyexn A d ∈ (inr <$> ds) ↔ d ∈ ds.
Proof.
  rewrite list_elem_of_fmap. split.
  - by intros (d' & [= ->] & H).
  - intros H. by exists d.
Qed.

Lemma not_elem_of_fmap_inr {A} (ds : list A) (e : pyexn) :
  @inl pyexn A e ∉ (inr <$> ds).
Proof. rewrite list_elem_of_fmap. by intros (d & ? & _). Qed.

Lemma elem_of_replies w pkg ecosystems r :
  r ∈ replies w pkg ecosystems
  ↔ ∃ ecosystem, ecosystem ∈ ecosystems ∧ r = osv_reply w (osv_query pkg ecosystem).
Proof.
  unfold replies. rewrite list_elem_of_fmap.
  split; intros (ecosystem & ? & ?); eauto.
Qed.

Lemma answered_bodies w pkg ecosystems ds :
  replies w pkg ecosystems = inr <$> ds →
  ∀ d, d ∈ ds ↔ ∃ ecosystem, ecosystem ∈ ecosystems ∧ answers w pkg ecosystem d.
Proof.
  intros Hr d. rewrite <-(elem_of_fmap_inr ds d), <-Hr, elem_of_replies.
  unfold answers. split; intros (ecosystem & ? & ?); eauto.
Qed.

Lemma drained_extract ds fv :
  drain (extract_fixed_versions <$> ds) [] = inr fv →
  Forall ends_normally ds ∧ fv = ds ≫= yielded.
Proof.
  intros H. apply drain_inr in H as [Hends ->]. split.
  - by apply Forall_fmap in Hends.
  - cbn. apply fmap_extract_bind_fst.
Qed.

Lemma drain_raising ds e :
  drain (extract_fixed_versions <$> ds) [] = inl e →
  (e = TypeError ∨ e = AttributeError)
  ∧ ∃ d, d ∈ ds ∧ (extract_fixed_versions d).2 = inl e.
Proof.
  intros H. apply drain_inl in H as (g & Hg & He).
  apply list_elem_of_fmap in Hg as (d & -> & Hd).
  pose proof (extract_fixed_versions_raises d) as Hraise.
  unfold raises_type_or_attribute in Hraise. rewrite He in Hraise. eauto.
Qed.

(** Property X5. When every query of a valid request is answered but the
    generator for one of the bodies raises, the whole request fails: the
    aggregator raises a [TypeError] or an [AttributeError], nothing of
    what the other ecosystems gave is returned, and the answer is the
    server error, not the 404 and not a success. *)
Theorem malformed_body_fails_request rt w pkg ecos ds d e :
  pkg ≠ EmptyString →
  all_answered w pkg (ecosystems_or_default ecos) ds →
  d ∈ ds → (extract_fixed_versions d).2 = inl e →
  ∃ e', (e' = TypeError ∨ e' = AttributeError)
        ∧ (fetch_fixed_versions rt w pkg (ecosystems_or_default ecos) []).1 = inl e'
        ∧ (serve rt w (mkRequest (Some pkg) ecos)).1 = InternalServerError e'.
Proof.
  intros Hpkg Hds Hd He. apply replies_answers, first_error_inr in Hds.
  destruct (drain (extract_fixed_versions <$> ds) []) as [e'|fv] eqn:Hdrain.
  - destruct (drain_raising _ _ Hdrain) as [He' _]. exists e'. split_and!.
    + done.
    + by rewrite fetch_fixed_versions_run, Hds, Hdrain.
    + unfold serve. cbn [query_name query_ecosystems].
      rewrite validate_name_nonempty by done.
      rewrite (get_fixed_versions_raises _ _ _ _ ds _ e') by done.
      by destruct He' as [-> | ->].
  - apply drained_extract in Hdrain as [Hends _].
    apply (proj1 (Forall_forall _ _) Hends) in Hd.
    unfold ends_normally in Hd. congruence.
Qed.

Lemma malformed_body_fails_request_witness :
  ∃ e', (e' = TypeError ∨ e' = AttributeError)
        ∧ (fetch_fixed_versions ref_runtime broken_world "pkg" ["A"; "Mixed"] []).1 = inl e'
        ∧ (serve ref_runtime broken_world (mkRequest (Some "pkg") (Some ["A"; "Mixed"]))).1
          = InternalServerError e'.
Proof.
  apply (malformed_body_fails_request ref_runtime broken_world "pkg"
           (Some ["A"; "Mixed"]) [body_A; record_of [ event_fixed "9.9"; JInt 7 ]]
           (record_of [ event_fixed "9.9"; JInt 7 ]) AttributeError).
  - discriminate.
  - repeat constructor.
  - right; left.
  - vm_compute. reflexivity.
Defined.

(** Property X6. The queries posted while serving a request: none when the name
    is rejected; otherwise exactly one per entry of the list of
    ecosystems, in the order of the list and with repeated entries
    queried again, whatever the answer turns out to be.  Every query
    carries the package name and the ecosystem and leaves [commit],
    [version] and [pageToken] unset. *)
Theorem posted_queries rt w req :
  (serve rt w req).2
  = match validate_name (query_name req) with
    | None => []
    | Some pkg => osv_query pkg <$> ecosystems_or_default (query_ecosystems req)
    end
  ∧ Forall (λ q, commit q = None ∧ version q = None ∧ pageToken q = None
                 ∧ dom (package q) = {[ "name"; "ecosystem" ]})
           (serve rt w req).2.
Proof.
  assert ((serve rt w req).2
          = match validate_name (query_name req) with
            | None => []
            | Some pkg => osv_query pkg <$> ecosystems_or_default (query_ecosystems req)
            end) as Hlog.
  { destruct req as [[pkg|] ecos]; [|done].
    destruct pkg as [|c s]; [done|]. by rewrite serve_log. }
  split; [done|]. rewrite Hlog.
  destruct (validate_name _) as [pkg|]; [|done].
  apply Forall_fmap, Forall_forall. intros ecosystem _. cbn.
  split_and!; done.
Qed.

Lemma serve_success_inv rt w pkg ecos body :
  pkg ≠ EmptyString →
  fixed_are_str w pkg (ecosystems_or_default ecos) = true →
  (serve rt w (mkRequest (Some pkg) ecos)).1 = Ok200 body →
  ∃ ds, replies w pkg (ecosystems_or_default ecos) = inr <$> ds
        ∧ Forall ends_normally ds
        ∧ ds ≫= yielded = JStr <$> strs_of (ds ≫= yielded)
        ∧ set_order rt (strs_of (ds ≫= yielded)) ≠ []
        ∧ body = mkFixedVersionsResponse pkg
                   (merge_sort String.le (set_order rt (strs_of (ds ≫= yielded))))
                   (now_isoformat w).
Proof.
  intros Hpkg Htyped. rewrite serve_typed by done. cbn [fst].
  destruct (first_error _) as [e|ds] eqn:Hr; [done|].
  apply first_error_inr in Hr.
  destruct (drain _ _) as [e|fv] eqn:Hd; [done|].
  apply drained_extract in Hd as [Hends ->].
  destruct (set_order rt _) as [|v vs] eqn:Hvs; [done|].
  intros [= <-]. exists ds. rewrite Hvs. split_and!; try done.
  apply is_str_strs_of. eauto using fixed_are_str_yielded.
Qed.

(** Property X7. Soundness and completeness of the merged list.  In a success
    response the name is the requested name, the timestamp is the clock
    reading, and a string is among [versions] exactly when the generator
    yields it for the body answered to one of the requested ecosystems;
    in particular the empty string is never among them. *)
Theorem versions_are_the_extracted_values rt w pkg ecos body :
  pkg ≠ EmptyString →
  fixed_are_str w pkg (ecosystems_or_default ecos) = true →
  (serve rt w (mkRequest (Some pkg) ecos)).1 = Ok200 body →
  name body = pkg
  ∧ timestamp body = now_isoformat w
  ∧ (∀ v, v ∈ versions body ↔
          ∃ ecosystem d, ecosystem ∈ ecosystems_or_default ecos
                         ∧ answers w pkg ecosystem d ∧ JStr v ∈ yielded d)
  ∧ (EmptyString ∉ versions body).
Proof.
  intros Hpkg Htyped Hok.
  destruct (serve_success_inv _ _ _ _ _ Hpkg Htyped Hok)
    as (ds & Hr & _ & _ & _ & ->).
  cbn [name timestamp versions].
  assert (∀ v, v ∈ merge_sort String.le (set_order rt (strs_of (ds ≫= yielded)))
               ↔ ∃ d, d ∈ ds ∧ JStr v ∈ yielded d) as Hmem.
  { intros v. rewrite merge_sort_Permutation, set_order_elem_of, elem_of_strs_of.
    rewrite list_elem_of_bind. split; intros (d & ? & ?); eauto. }
  split_and!; [done|done| |].
  - intros v. rewrite Hmem. split.
    + intros (d & Hd & Hv). apply (answered_bodies _ _ _ _ Hr) in Hd as (eco & ? & ?).
      eauto.
    + intros (eco & d & Heco & Hans & Hv). exists d. split; [|done].
      apply (answered_bodies _ _ _ _ Hr). eauto.
  - rewrite Hmem. intros (d & _ & Hv).
    by apply (proj1 (Forall_forall _ _) (yielded_truthy d)) in Hv.
Qed.

Lemma versions_are_the_extracted_values_witness :
  "pkg" = "pkg"
  ∧ "2024-01-01T00:00:00" = now_isoformat sample_world
  ∧ (∀ v, v ∈ ["1.0"; "2.1"; "3.0"] ↔
          ∃ ecosystem d, ecosystem ∈ ["A"; "B"]
                         ∧ answers sample_world "pkg" ecosystem d ∧ JStr v ∈ yielded d)
  ∧ (EmptyString ∉ ["1.0"; "2.1"; "3.0"]).
Proof.
  apply (versions_are_the_extracted_values ref_runtime sample_world "pkg"
           (Some ["A"; "B"])
           (mkFixedVersionsResponse "pkg" ["1.0"; "2.1"; "3.0"] "2024-01-01T00:00:00")).
  - discriminate.
  - vm_compute. reflexivity.
  - vm_compute. reflexivity.
Defined.

Lemma replies_same_elements w pkg es1 es2 :
  (∀ ecosystem, ecosystem ∈ es1 ↔ ecosystem ∈ es2) →
  ∀ r, r ∈ replies w pkg es1 ↔ r ∈ replies w pkg es2.
Proof.
  intros Hel r. rewrite !elem_of_replies.
  split; intros (ecosystem & ? & ?); exists ecosystem; split; try done; by apply Hel.
Qed.

Lemma fixed_are_str_same_elements w pkg es1 es2 :
  (∀ ecosystem, ecosystem ∈ es1 ↔ ecosystem ∈ es2) →
  fixed_are_str w pkg es1 = true → fixed_are_str w pkg es2 = true.
Proof.
  intros Hel. unfold fixed_are_str. rewrite !forallb_forall.
  intros H r Hr. apply H. revert Hr. rewrite <-!list_elem_of_In.
  by apply replies_same_elements.
Qed.

(** Property X8. The versions of the answer depend on the requested ecosystems
    only through their set: two lists with the same entries, in any order
    and with any repetitions, give the same [versions] list, or neither
    gives a success. *)
Theorem versions_depend_on_ecosystem_set rt1 rt2 w pkg es1 es2 :
  (∀ ecosystem, ecosystem ∈ es1 ↔ ecosystem ∈ es2) →
  fixed_are_str w pkg es1 = true →
  answer_versions (serve rt1 w (mkRequest (Some pkg) (Some es1))).1
  = answer_versions (serve rt2 w (mkRequest (Some pkg) (Some es2))).1.
Proof.
  intros Hel Hs1. destruct (decide (pkg = EmptyString)) as [->|Hpkg]; [done|].
  pose proof (fixed_are_str_same_elements _ _ _ _ Hel Hs1) as Hs2.
  pose proof (replies_same_elements w pkg _ _ Hel) as Hrel.
  rewrite (serve_typed rt1 w pkg (Some es1)), (serve_typed rt2 w pkg (Some es2))
    by done.
  change (ecosystems_or_default (Some es1)) with es1.
  change (ecosystems_or_default (Some es2)) with es2. cbn [fst].
  destruct (first_error (replies w pkg es1)) as [e1|ds1] eqn:H1;
    destruct (first_error (replies w pkg es2)) as [e2|ds2] eqn:H2.
  - done.
  - apply first_error_inl, Hrel in H1. apply first_error_inr in H2.
    rewrite H2 in H1. by apply not_elem_of_fmap_inr in H1.
  - apply first_error_inl, Hrel in H2. apply first_error_inr in H1.
    rewrite H1 in H2. by apply not_elem_of_fmap_inr in H2.
  - apply first_error_inr in H1, H2.
    assert (∀ d, d ∈ ds1 ↔ d ∈ ds2) as Hds.
    { intros d. by rewrite <-(elem_of_fmap_inr ds1), <-(elem_of_fmap_inr ds2), <-H1, <-H2. }
    assert (∀ dsa dsb e fv, (∀ d, d ∈ dsa ↔ d ∈ dsb) →
              drain (extract_fixed_versions <$> dsa) [] = inl e →
              drain (extract_fixed_versions <$> dsb) [] = inr fv → False) as Hmix.
    { intros dsa dsb e fv Hab Ha Hb.
      apply drain_raising in Ha as (_ & d & Hd & He).
      apply drained_extract in Hb as [Hends _].
      apply Hab in Hd. apply (proj1 (Forall_forall _ _) Hends) in Hd.
      unfold ends_normally in Hd. congruence. }
    destruct (drain (extract_fixed_versions <$> ds1) []) as [e1|fv1] eqn:Hd1;
      destruct (drain (extract_fixed_versions <$> ds2) []) as [e2|fv2] eqn:Hd2.
    + done.
    + destruct (Hmix ds1 ds2 e1 fv2 Hds Hd1 Hd2).
    + destruct (Hmix ds2 ds1 e2 fv1 (λ d, iff_sym (Hds d)) Hd2 Hd1).
    + apply drained_extract in Hd1 as [_ ->], Hd2 as [_ ->].
      apply merged_answer_versions. intros x.
      rewrite !elem_of_strs_of, !list_elem_of_bind.
      split; intros (d & ? & ?); exists d; split; try done; by apply Hds.
Qed.

Lemma versions_depend_on_ecosystem_set_witness :
  answer_versions (serve ref_runtime sample_world (mkRequest (Some "pkg") (Some ["A"; "B"]))).1
  = answer_versions
      (serve ref_runtime sample_world (mkRequest (Some "pkg") (Some ["B"; "A"; "B"; "B"]))).1.
Proof.
  apply (versions_depend_on_ecosystem_set ref_runtime ref_runtime sample_world "pkg"
           ["A"; "B"] ["B"; "A"; "B"; "B"]).
  - intros ecosystem. rewrite !elem_of_cons, !elem_of_nil. tauto.
  - vm_compute. reflexivity.
Defined.

(** Property X9. One call of [query_osv_api] posts exactly one query, to the OSV
    URL, whatever comes back (no retry).  It returns the decoded body
    exactly when there is a response, its status is between 200 and 299
    inclusive, and its body decodes; the status is looked at before the
    body, so a response outside 2xx raises [HTTPStatusError] with that
    status even when its body is valid JSON. *)
Theorem query_osv_api_outcome w q log :
  (query_osv_api w q log).2 = log ++ [q]
  ∧ (∀ d, (query_osv_api w q log).1 = inr d
          ↔ ∃ r, http_post w OSV_API_URL q = Some r
                 ∧ (200 ≤ status_code r ≤ 299)%Z ∧ json_body r = Some d)
  ∧ (http_post w OSV_API_URL q = None →
     (query_osv_api w q log).1 = inl TransportError)
  ∧ (∀ r, http_post w OSV_API_URL q = Some r →
          ¬ (200 ≤ status_code r ≤ 299)%Z →
          (query_osv_api w q log).1 = inl (HTTPStatusError (status_code r)))
  ∧ (∀ r, http_post w OSV_API_URL q = Some r →
          (200 ≤ status_code r ≤ 299)%Z → json_body r = None →
          (query_osv_api w q log).1 = inl JSONDecodeError).
Proof.
  rewrite query_osv_api_run. cbn [fst snd]. unfold osv_reply, response_json.
  split_and!.
  - done.
  - intros d. destruct (http_post w OSV_API_URL q) as [r|].
    + case_bool_decide as Hs.
      * destruct (json_body r) as [d'|] eqn:Hd.
        -- split; [intros [= <-]; eauto|]. intros (r' & [= <-] & _ & Hd').
           congruence.
        -- split; [done|]. intros (r' & [= <-] & _ & Hd'). congruence.
      * split; [done|]. by intros (r' & [= <-] & Hs' & _).
    + split; [done|]. by intros (r' & ? & _).
  - by intros ->.
  - intros r -> Hs. by rewrite bool_decide_false.
  - intros r -> Hs Hd. by rewrite bool_decide_true, Hd.
Qed.



(** Property X11. With an empty list of ecosystems the aggregator posts nothing
    and returns the empty list, and the handler raises the 404 error. *)
Theorem no_ecosystems_is_not_found rt w pkg log :
  fetch_fixed_versions rt w pkg [] log = (inr [], log)
  ∧ get_fixed_versions rt w pkg [] log
    = (inl (HTTPException 404 "No fixed versions found"), log).
Proof.
  assert (fetch_fixed_versions rt w pkg [] log = (inr [], log)) as Hfetch.
  { rewrite fetch_fixed_versions_run. cbn. unfold py_list_set. cbn.
    by rewrite set_order_nil, app_nil_r. }
  split; [done|].
  unfold get_fixed_versions, mbind, io_mbind, io_bind. by rewrite Hfetch.
Qed.

(** Property X12. The answers a valid request can get, the extracted values being
    [str].  A success means that every query was answered, every
    generator ran to its end and something was yielded; an error response
    is always the 404 with its fixed detail and means the same with
    nothing yielded; a server error carries either the exception of a
    failed query or the [TypeError] or [AttributeError] of a generator;
    the validation error does not occur. *)
Theorem answer_classification rt w pkg ecos :
  pkg ≠ EmptyString →
  fixed_are_str w pkg (ecosystems_or_default ecos) = true →
  match (serve rt w (mkRequest (Some pkg) ecos)).1 with
  | Ok200 body =>
      ∃ ds, all_answered w pkg (ecosystems_or_default ecos) ds
            ∧ Forall ends_normally ds ∧ ds ≫= yielded ≠ []
  | ErrorResponse status detail =>
      status = 404%Z ∧ detail = "No fixed versions found"
      ∧ ∃ ds, all_answered w pkg (ecosystems_or_default ecos) ds
              ∧ Forall ends_normally ds ∧ ds ≫= yielded = []
  | RequestValidationError => False
  | InternalServerError e =>
      (is_query_error e
       ∧ ∃ ecosystem, ecosystem ∈ ecosystems_or_default ecos
                      ∧ osv_reply w (osv_query pkg ecosystem) = inl e)
      ∨ ((e = TypeError ∨ e = AttributeError)
         ∧ ∃ ds d, all_answered w pkg (ecosystems_or_default ecos) ds
                   ∧ d ∈ ds ∧ (extract_fixed_versions d).2 = inl e)
  end.
Proof.
  intros Hpkg Htyped. rewrite serve_typed by done. cbn [fst].
  destruct (first_error _) as [e|ds] eqn:Hr.
  { left. apply first_error_inl, elem_of_replies in Hr as (ecosystem & Hin & He).
    split; [by eapply osv_reply_error|]. eauto. }
  apply first_error_inr in Hr.
  pose proof (proj1 (replies_answers _ _ _ _) Hr) as Hans.
  destruct (drain _ _) as [e|fv] eqn:Hd.
  { right. apply drain_raising in Hd as (He & d & Hd & Hraise).
    split; [done|]. exists ds, d. done. }
  pose proof (fixed_are_str_yielded _ _ _ _ Htyped Hr) as Hstr.
  apply is_str_strs_of in Hstr.
  apply drained_extract in Hd as [Hends ->].
  destruct (set_order rt _) as [|v vs] eqn:Hvs.
  - split_and!; [done|done|]. exists ds. split_and!; [done|done|].
    apply set_order_nil_inv in Hvs. by rewrite Hstr, Hvs.
  - exists ds. split_and!; [done|done|].
    intros Hnil. rewrite Hnil in Hvs. cbn in Hvs. by rewrite set_order_nil in Hvs.
Qed.

Lemma answer_classification_witness :
  (is_query_error (HTTPStatusError 418)
   ∧ ∃ ecosystem, ecosystem ∈ ["A"; "Teapot"]
                  ∧ osv_reply broken_world (osv_query "pkg" ecosystem)
                    = inl (HTTPStatusError 418))
  ∨ ((HTTPStatusError 418 = TypeError ∨ HTTPStatusError 418 = AttributeError)
     ∧ ∃ ds d, all_answered broken_world "pkg" ["A"; "Teapot"] ds
               ∧ d ∈ ds ∧ (extract_fixed_versions d).2 = inl (HTTPStatusError 418)).
Proof.
  apply (answer_classification ref_runtime broken_world "pkg" (Some ["A"; "Teapot"])).
  - discriminate.
  - vm_compute. reflexivity.
Defined.

(** Property X13. The validation error is the answer exactly when the name is
    missing or empty: a non-empty name is never rejected, whatever the
    ecosystems, the API and the runtime do. *)
Theorem validation_error_iff rt w req :
  (serve rt w req).1 = RequestValidationError
  ↔ query_name req = None ∨ query_name req = Some EmptyString.
Proof.
  destruct req as [[pkg|] ecos]; cbn [query_name].
  - destruct pkg as [|c s].
    + split; [by right|done].
    + split; [|by intros [?|?]].
      unfold serve. cbn [query_name query_ecosystems validate_name].
      cbn. destruct (get_fixed_versions _ _ _ _ _) as [[e|body] log]; [|done].
      by destruct e.
  - split; [by left|done].
Qed.

(** Property X14. The aggregator on its own: when every query is answered, every
    generator runs to its end and the values are [str], it returns a list
    without duplicates whose elements are exactly the values yielded for
    the requested ecosystems; nothing is said of the order, which is the
    set's. *)
Theorem aggregator_returns_the_set rt w pkg ecosystems ds log :
  all_answered w pkg ecosystems ds →
  Forall ends_normally ds →
  forallb is_str (ds ≫= yielded) = true →
  ∃ fixed_versions,
    (fetch_fixed_versions rt w pkg ecosystems log).1 = inr fixed_versions
    ∧ NoDup fixed_versions
    ∧ ∀ v, v ∈ fixed_versions ↔ v ∈ ds ≫= yielded.
Proof.
  intros Hans Hends Hstr.
  apply replies_answers, first_error_inr in Hans.
  apply is_str_strs_of in Hstr.
  rewrite fetch_fixed_versions_run, Hans. cbn [fst].
  rewrite drain_all_end by (by apply Forall_fmap).
  cbn [app]. rewrite fmap_extract_bind_fst, Hstr.
  unfold py_list_set. rewrite as_strs_fmap.
  eexists. split_and!; [done| |].
  - apply NoDup_fmap_2; [|apply set_order_NoDup]. by intros s1 s2 [= ->].
  - intros v. rewrite !list_elem_of_fmap.
    split; intros (s & -> & Hs); exists s; (split; [done|]).
    + by apply (proj1 (set_order_elem_of rt _ s)).
    + by apply (proj2 (set_order_elem_of rt _ s)).
Qed.

Lemma aggregator_returns_the_set_witness :
  ∃ fixed_versions,
    (fetch_fixed_versions ref_runtime sample_world "pkg" ["A"; "B"] []).1
      = inr fixed_versions
    ∧ NoDup fixed_versions
    ∧ ∀ v, v ∈ fixed_versions ↔ v ∈ [body_A; body_B] ≫= yielded.
Proof.
  apply (aggregator_returns_the_set ref_runtime sample_world "pkg" ["A"; "B"]
           [body_A; body_B] []).
  - repeat constructor.
  - repeat constructor.
  - vm_compute. reflexivity.
Defined.
